(** * CrewLink-server: the signalling relay of [src/index.ts]

    A shallow embedding of the socket.io event handlers of the server
    (join, id, pushstate, leave, signal, disconnect), of the two HTTP
    queries that read the snapshot map, and of the part of socket.io 2.x
    the handlers rely on: the room table of the adapter, the room every
    socket joins under its own id, and the synchronous close performed by
    [socket.disconnect()].

    Conventions of the model:
    - a JavaScript [number] is an integer ([Z]); the ids of the protocol
      ([playerId], [clientId]) are integers, and [NaN] or fractions are
      outside the model;
    - a JavaScript object used as a map is a [gmap] of its own properties;
      the room table is a [gmap] from room name to the [gset] of socket ids
      in the room, and a read of the table under a name it does not have
      falls through to [Object.prototype];
    - calls to the logger have no effect on the state and are left out. *)

From Stdlib Require Import ZArith String List.
From stdpp Require Import base option list gmap sets strings.

Local Open Scope string_scope.
#[local] Set Warnings "-clear-no-such-hyp".

(** ** JavaScript values received in messages *)

Module Js.

#[warnings="-register-all"]
Inductive JsVal : Type :=
| JUndefined
| JNull
| JBool (b : bool)
| JNum (n : Z)
| JStr (s : string)
| JObj (fields : list (string * JsVal)).

Inductive JsType : Set :=
| TUndefined | TObject | TBoolean | TNumber | TString.

(** [typeof v]; note that [typeof null] is ['object']. *)
Definition typeof (v : JsVal) : JsType :=
  match v with
  | JUndefined => TUndefined
  | JNull => TObject
  | JBool _ => TBoolean
  | JNum _ => TNumber
  | JStr _ => TString
  | JObj _ => TObject
  end.

(** The boolean a value coerces to, as in [!v] and [v ? a : b]. *)
Definition truthy (v : JsVal) : bool :=
  match v with
  | JUndefined | JNull => false
  | JBool b => b
  | JNum n => negb (n =? 0)%Z
  | JStr s => negb (String.eqb s "")
  | JObj _ => true
  end.

Fixpoint field (k : string) (fields : list (string * JsVal)) : JsVal :=
  match fields with
  | [] => JUndefined
  | (k', v) :: rest => if String.eqb k' k then v else field k rest
  end.

Inductive JsError : Set := SyntaxError | TypeError.

(** [v.k]: reading a property of [null] or [undefined] throws a
    [TypeError]; a property that is not there reads as [undefined]. *)
Definition get_prop (v : JsVal) (k : string) : JsError + JsVal :=
  match v with
  | JUndefined | JNull => inl TypeError
  | JObj fields => inr (field k fields)
  | JBool _ | JNum _ | JStr _ => inr JUndefined
  end.

(** The property names of [Object.prototype]: a plain object used as a
    table reads as a truthy value under each of them, also when it has no
    such entry of its own. *)
Definition object_prototype_names : list string :=
  [ "constructor"; "__defineGetter__"; "__defineSetter__"; "hasOwnProperty";
    "__lookupGetter__"; "__lookupSetter__"; "isPrototypeOf";
    "propertyIsEnumerable"; "toString"; "valueOf"; "__proto__";
    "toLocaleString" ].

Definition inherited (k : string) : bool :=
  existsb (String.eqb k) object_prototype_names.

(** Key comparison of a JavaScript [Map] (SameValueZero).  An object is
    only the same as itself; every object the server uses as a key is
    freshly made by [JSON.parse], so it is the same as no earlier key. *)
Definition same_value_zero (a b : JsVal) : bool :=
  match a, b with
  | JUndefined, JUndefined => true
  | JNull, JNull => true
  | JBool x, JBool y => Bool.eqb x y
  | JNum x, JNum y => (x =? y)%Z
  | JStr x, JStr y => String.eqb x y
  | _, _ => false
  end.

(** [Map.prototype.set] and [Map.prototype.get] on an insertion-ordered
    list of entries. *)
Fixpoint map_set {V : Type} (k : JsVal) (v : V) (m : list (JsVal * V))
  : list (JsVal * V) :=
  match m with
  | [] => [(k, v)]
  | (k', v') :: rest =>
      if same_value_zero k' k then (k', v) :: rest
      else (k', v') :: map_set k v rest
  end.

Fixpoint map_get {V : Type} (k : JsVal) (m : list (JsVal * V)) : option V :=
  match m with
  | [] => None
  | (k', v') :: rest =>
      if same_value_zero k' k then Some v' else map_get k rest
  end.

Definition map_has {V : Type} (k : JsVal) (m : list (JsVal * V)) : bool :=
  match map_get k m with Some _ => true | None => false end.

End Js.
Import Js.

(** ** The room table of the socket.io adapter *)

Module Adapter.

(** [Adapter.add]: the room is created when it is not there. *)
Definition add (id room : string) (rooms : gmap string (gset string))
  : gmap string (gset string) :=
  <[room := {[id]} ∪ default ∅ (rooms !! room)]> rooms.

(** What is left of a room once [id] is out of it; a room that becomes
    empty is deleted from the table. *)
Definition room_del (id : string) (r : gset string) : option (gset string) :=
  let r' := r ∖ {[id]} in
  if decide (r' = ∅) then None else Some r'.

(** [Adapter.del]. *)
Definition del (id room : string) (rooms : gmap string (gset string))
  : gmap string (gset string) :=
  match rooms !! room with
  | Some r =>
      match room_del id r with
      | Some r' => <[room := r']> rooms
      | None => delete room rooms
      end
  | None => rooms
  end.

(** [Adapter.delAll]: [id] leaves every room it is in. *)
Definition delAll (id : string) (rooms : gmap string (gset string))
  : gmap string (gset string) :=
  omap (fun r => if decide (id ∈ r) then room_del id r else Some r) rooms.

Definition members (room : string) (rooms : gmap string (gset string))
  : gset string :=
  default ∅ (rooms !! room).

End Adapter.

(** ** Server state *)

Record Client : Set := mkClient {
  playerId : Z;
  clientId : option Z     (* [None] is [null] *)
}.

#[global] Instance Client_eq_dec : EqDecision Client.
Proof. solve_decision. Defined.

(** What the server sends. *)
Inductive Packet : Type :=
| PJoin (sid : string) (client : Client)
| PSetClients (otherClients : gmap string (option Client))
| PSetClient (sid : string) (client : Client)
| PSignal (data : JsVal) (from : string).

(** A packet together with the socket it is delivered to. *)
Definition Emit : Type := string * Packet.

Record State : Type := mkState {
  (** the live sockets, each with the variable [code] of its closure *)
  sockets : gmap string (option string);
  (** [io.sockets.adapter.rooms] *)
  rooms : gmap string (gset string);
  (** [clients] *)
  clients : gmap string Client;
  (** [states] *)
  states : list (JsVal * JsVal);
  connectionCount : Z
}.

Definition init : State :=
  {| sockets := ∅; rooms := ∅; clients := ∅; states := []; connectionCount := 0 |}.

(** The outcome of running one handler: the state it leaves, what it sent,
    and the exception it let escape, if any. *)
Record Result : Type := mkResult {
  post : State;
  emitted : list Emit;
  thrown : option JsError
}.

Definition Done (σ : State) (out : list Emit) : Result :=
  {| post := σ; emitted := out; thrown := None |}.

Definition Throw (e : JsError) (σ : State) : Result :=
  {| post := σ; emitted := []; thrown := Some e |}.

(** [clientId === Math.pow(2, 32) - 1 ? null : clientId] *)
Definition normalize (clientId : Z) : option Z :=
  if (clientId =? 2 ^ 32 - 1)%Z then None else Some clientId.

(** [stored === clientId], for a stored [clientId] that may be [null]. *)
Definition strict_eq (stored : option Z) (clientId : Z) : bool :=
  match stored with
  | Some k => (k =? clientId)%Z
  | None => false
  end.

(** Delivery to every connected socket of a room but those in [except]
    ([Adapter.broadcast]). *)
Definition broadcast (room : string) (except : gset string) (p : Packet)
    (σ : State) : list Emit :=
  (fun r => (r, p)) <$>
    filter (fun r => r ∈ dom (sockets σ))
      (elements (Adapter.members room (rooms σ) ∖ except)).

(** The listener of ['disconnect']. *)
Definition on_disconnect (sid : string) (σ : State) : State :=
  {| sockets := sockets σ;
     rooms := rooms σ;
     clients := delete sid (clients σ);
     states := states σ;
     connectionCount := connectionCount σ - 1 |}.

(** [Socket.onclose]: the socket leaves all its rooms, is no longer
    connected, and ['disconnect'] is fired; nothing happens for a socket
    that is not connected. *)
Definition close (sid : string) (σ : State) : State :=
  match sockets σ !! sid with
  | None => σ
  | Some _ =>
      on_disconnect sid
        {| sockets := delete sid (sockets σ);
           rooms := Adapter.delAll sid (rooms σ);
           clients := clients σ;
           states := states σ;
           connectionCount := connectionCount σ |}
  end.

(** [socket.disconnect()] *)
Definition socket_disconnect (sid : string) (σ : State) : State := close sid σ.

(** The listener of ['connection']: the counter goes up and [code] is
    [null]; socket.io has put the socket in the room of its own id. *)
Definition on_connection (sid : string) (σ : State) : State :=
  {| sockets := <[sid := None]> (sockets σ);
     rooms := Adapter.add sid sid (rooms σ);
     clients := clients σ;
     states := states σ;
     connectionCount := connectionCount σ + 1 |}.

(** ** The handlers *)

(** The loop of the ['join'] listener over the sockets of the lobby:
    [None] when a socket of the lobby holds the asserted [clientId] (the
    listener disconnects and returns), and otherwise [otherClients]. *)
Fixpoint scan_lobby (clients : gmap string Client) (sid : string) (clientId : Z)
    (socketsInLobby : list string) (otherClients : gmap string (option Client))
  : option (gmap string (option Client)) :=
  match socketsInLobby with
  | [] => Some otherClients
  | s :: rest =>
      match clients !! s with
      | Some (mkClient _ stored) =>
          if strict_eq stored clientId then None
          else scan_lobby clients sid clientId rest
                 (if decide (s ≠ sid) then <[s := clients !! s]> otherClients
                  else otherClients)
      | None =>
          scan_lobby clients sid clientId rest
            (if decide (s ≠ sid) then <[s := clients !! s]> otherClients
             else otherClients)
      end
  end.

(** [socket.on('join', (c, id, clientId) => ...)].  When the room table
    has no room [c] of its own but [c] is a property name of
    [Object.prototype], [io.sockets.adapter.rooms[c]] is truthy and has no
    [sockets]: [Object.keys] throws a [TypeError] before anything is
    written. *)
Definition on_join (sid : string) (c id clientId : JsVal) (σ : State) : Result :=
  match c, id, clientId with
  | JStr c, JNum id, JNum clientId =>
      let scanned :=
        match rooms σ !! c with
        | Some room => inr (scan_lobby (clients σ) sid clientId (elements room) ∅)
        | None => if inherited c then inl TypeError else inr (Some ∅)
        end in
      match scanned with
      | inl e => Throw e σ
      | inr None => Done (socket_disconnect sid σ) []
      | inr (Some otherClients) =>
          let σ' :=
            {| sockets := <[sid := Some c]> (sockets σ);
               rooms := Adapter.add sid c (rooms σ);
               clients := clients σ;
               states := states σ;
               connectionCount := connectionCount σ |} in
          Done σ'
            (broadcast c {[sid]}
               (PJoin sid {| playerId := id; clientId := normalize clientId |}) σ'
             ++ [(sid, PSetClients otherClients)])
      end
  | _, _, _ => Done (socket_disconnect sid σ) []
  end.

(** The room a packet sent with [socket.to(code)] goes to: a [null] name
    is looked up in the room table under the key ["null"]. *)
Definition room_key (code : option string) : string := default "null" code.

(** [socket.on('id', (id, clientId) => ...)] *)
Definition on_id (sid : string) (code : option string) (id clientId : JsVal)
    (σ : State) : Result :=
  match id, clientId with
  | JNum id, JNum clientId =>
      let spoofing :=
        match clients σ !! sid with
        | Some (mkClient _ (Some stored)) => negb (stored =? clientId)%Z
        | Some (mkClient _ None) => false
        | None => false
        end in
      if spoofing then Done (socket_disconnect sid σ) []
      else
        let client := {| playerId := id; clientId := normalize clientId |} in
        let σ' :=
          {| sockets := sockets σ;
             rooms := rooms σ;
             clients := <[sid := client]> (clients σ);
             states := states σ;
             connectionCount := connectionCount σ |} in
        Done σ' (broadcast (room_key code) {[sid]} (PSetClient sid client) σ')
  | _, _ => Done (socket_disconnect sid σ) []
  end.

(** [socket.on('leave', () => ...)]; [if (code)] fails for [null] and for
    the empty string. *)
Definition on_leave (sid : string) (code : option string) (σ : State) : Result :=
  match code with
  | Some c =>
      if String.eqb c "" then Done σ []
      else
        Done
          {| sockets := sockets σ;
             rooms := Adapter.del sid c (rooms σ);
             clients := delete sid (clients σ);
             states := states σ;
             connectionCount := connectionCount σ |} []
  | None => Done σ []
  end.

(** [socket.on('signal', (signal) => ...)]; [io.to(to).emit] delivers to
    every socket of the room named [to]. *)
Definition on_signal (sid : string) (signal : JsVal) (σ : State) : Result :=
  match typeof signal with
  | TObject =>
      match get_prop signal "data", get_prop signal "to" with
      | inr data, inr to =>
          match to with
          | JStr to' =>
              if truthy data && truthy to then
                Done σ (broadcast to' ∅ (PSignal data sid) σ)
              else Done (socket_disconnect sid σ) []
          | _ => Done (socket_disconnect sid σ) []
          end
      | inl e, _ => Throw e σ
      | _, inl e => Throw e σ
      end
  | _ => Done (socket_disconnect sid σ) []
  end.

Section Server.

(** [JSON.parse] of the runtime: [None] when it throws a [SyntaxError]. *)
Variable JSON_parse : JsVal -> option JsVal.

(** [socket.on('pushstate', (id, state) => ...)] *)
Definition on_pushstate (sid : string) (id state : JsVal) (σ : State) : Result :=
  match JSON_parse state with
  | None => Throw SyntaxError σ
  | Some gameState =>
      match get_prop gameState "lobbyCode" with
      | inl e => Throw e σ
      | inr lobbyCode =>
          Done
            {| sockets := sockets σ;
               rooms := rooms σ;
               clients := clients σ;
               states := map_set lobbyCode gameState (states σ);
               connectionCount := connectionCount σ |} []
      end
  end.

(** ** Events of the transport and runs of the server *)

Inductive Msg : Type :=
| MJoin (c id clientId : JsVal)
| MId (id clientId : JsVal)
| MPushstate (id state : JsVal)
| MLeave
| MSignal (signal : JsVal)
| MDisconnect.

Inductive Event : Type :=
| Connect (sid : string)
| Message (sid : string) (m : Msg)
| Disconnect (sid : string).

(** One event.  [Connect] is a CONNECT packet: the ['connection'] listener
    runs with a new closure, also when the client sends the packet again
    under an id that is live.  [Message] is an event a client emits under
    one of the names the server listens to; [MDisconnect] is the client
    event named ['disconnect'], which runs the listener of that name and
    closes nothing.  [Disconnect] is the close of the socket.  Only a live
    socket has listeners: a message of a socket that is not connected
    leaves the state as it is. *)
Definition step (e : Event) (σ : State) : Result :=
  match e with
  | Connect sid => Done (on_connection sid σ) []
  | Message sid m =>
      match sockets σ !! sid with
      | None => Done σ []
      | Some code =>
          match m with
          | MJoin c id clientId => on_join sid c id clientId σ
          | MId id clientId => on_id sid code id clientId σ
          | MPushstate id state => on_pushstate sid id state σ
          | MLeave => on_leave sid code σ
          | MSignal signal => on_signal sid signal σ
          | MDisconnect => Done (on_disconnect sid σ) []
          end
      end
  | Disconnect sid => Done (close sid σ) []
  end.

(** A run stops at the first exception no listener catches. *)
Fixpoint run (es : list Event) (σ : State) : Result :=
  match es with
  | [] => Done σ []
  | e :: rest =>
      let r := step e σ in
      match thrown r with
      | Some _ => r
      | None =>
          let r' := run rest (post r) in
          {| post := post r'; emitted := emitted r ++ emitted r'; thrown := thrown r' |}
      end
  end.

(** The event stores a snapshot under the string key [code]. *)
Definition pushes (code : string) (e : Event) : Prop :=
  match e with
  | Message _ (MPushstate _ state) =>
      ∃ gameState, JSON_parse state = Some gameState
                   ∧ get_prop gameState "lobbyCode" = inr (JStr code)
  | _ => False
  end.

(** The events of a client that connects once under its id and emits no
    event named ['disconnect']. *)
Definition orderly_event (e : Event) (σ : State) : Prop :=
  match e with
  | Connect sid => sockets σ !! sid = None
  | Message _ MDisconnect => False
  | _ => True
  end.

(** A run all of whose events are orderly. *)
Fixpoint orderly (es : list Event) (σ : State) : Prop :=
  match es with
  | [] => True
  | e :: rest =>
      orderly_event e σ
      ∧ (thrown (step e σ) = None → orderly rest (post (step e σ)))
  end.

End Server.

(** ** The HTTP queries over the snapshot map *)

(** [app.get('/gameState')]: [roomCode] is the query parameter, [None]
    when the request has none. *)
Definition get_gameState (roomCode : option string) (σ : State) : option JsVal :=
  match roomCode with
  | Some code => if truthy (JStr code) then map_get (JStr code) (states σ) else None
  | None => None
  end.

(** The [isValid] field of [app.get('/hasRoomCode')]. *)
Definition get_hasRoomCode (roomCode : option string) (σ : State) : bool :=
  match roomCode with
  | Some code => if truthy (JStr code) then map_has (JStr code) (states σ) else false
  | None => false
  end.

(** ** Notions the properties are stated with *)

(** The socket [s] holds the non-null client id [k] in the identity
    registry. *)
Definition holds (clients : gmap string Client) (s : string) (k : Z) : Prop :=
  ∃ client, clients !! s = Some client ∧ clientId client = Some k.

(** The socket is connected. *)
Definition live (s : string) (σ : State) : Prop := is_Some (sockets σ !! s).


(** Only connected sockets have an identity. *)
Definition identities_live (σ : State) : Prop :=
  ∀ s, is_Some (clients σ !! s) → live s σ.

(** The read [io.sockets.adapter.rooms[c]] finds a room of the table, or
    nothing at all: [c] is not a name that only [Object.prototype] has. *)
Definition scannable (c : string) (σ : State) : Prop :=
  rooms σ !! c = None → inherited c = false.

(** The ['join'] listener accepts a well-typed join for [c] that asserts
    [k]: the scan can be made, and finds no socket of the lobby that holds
    [k]. *)
Definition accepts (c : string) (k : Z) (σ : State) : Prop :=
  scannable c σ
  ∧ ∀ t, t ∈ Adapter.members c (rooms σ) → ¬ holds (clients σ) t k.


(** The event is a join for the lobby whose code is [name]. *)
Definition joins (name : string) (e : Event) : Prop :=
  match e with
  | Message _ (MJoin (JStr c) _ _) => c = name
  | _ => False
  end.

(** No socket has [name] in its [code], and the room [name] holds the
    socket of that id while it is connected, and nothing else. *)
Definition own_room (name : string) (σ : State) : Prop :=
  (∀ s c, sockets σ !! s = Some (Some c) → c ≠ name)
  ∧ ∀ x, x ∈ Adapter.members name (rooms σ) ↔ x = name ∧ live name σ.

(** ** Concrete runs *)

(** A [JSON.parse] that knows the texts of a table and throws on every
    other argument. *)
Definition parse_table (table : list (string * JsVal)) (text : JsVal)
  : option JsVal :=
  match text with
  | JStr s => snd <$> List.find (fun entry => String.eqb (fst entry) s) table
  | _ => None
  end.

Definition quoted (s : string) : string :=
  String (Ascii.ascii_of_nat 34) (s ++ String (Ascii.ascii_of_nat 34) EmptyString).

(** The text [{"lobbyCode":code}] and the value it parses to. *)
Definition snapshot_text (code : string) : string :=
  "{" ++ quoted "lobbyCode" ++ ":" ++ quoted code ++ "}".

Definition snapshot_value (code : string) : JsVal :=
  JObj [("lobbyCode", JStr code)].

Definition json : JsVal -> option JsVal :=
  parse_table [(snapshot_text "ABCDE", snapshot_value "ABCDE");
               (snapshot_text "", snapshot_value "")].

Definition sentinel : Z := 2 ^ 32 - 1.

(** S1 and S2 connect and join LOBBY1, as in the scenario of the
    specification. *)
Definition scenario_joins : list Event :=
  [ Connect "S1"; Connect "S2";
    Message "S1" (MJoin (JStr "LOBBY1") (JNum 0) (JNum 5));
    Message "S2" (MJoin (JStr "LOBBY1") (JNum 1) (JNum 6)) ].

(** The same, S1 identifying itself before S2 joins. *)
Definition scenario_identified : list Event :=
  [ Connect "S1"; Connect "S2";
    Message "S1" (MJoin (JStr "LOBBY1") (JNum 0) (JNum 5));
    Message "S1" (MId (JNum 0) (JNum 5));
    Message "S2" (MJoin (JStr "LOBBY1") (JNum 1) (JNum 6)) ].

(** S1 is in LOBBY1 and has identified itself with client id 5; S2 is
    connected. *)
Definition S1_identified : list Event :=
  [ Connect "S1"; Connect "S2";
    Message "S1" (MJoin (JStr "LOBBY1") (JNum 0) (JNum 5));
    Message "S1" (MId (JNum 0) (JNum 5)) ].

(** S1 is in LOBBY1 and has identified itself with the sentinel: its
    stored client id is [null]. *)
Definition S1_without_clientId : list Event :=
  [ Connect "S1";
    Message "S1" (MJoin (JStr "LOBBY1") (JNum 0) (JNum sentinel));
    Message "S1" (MId (JNum 0) (JNum sentinel)) ].


(** S2 joins LOBBY1 under client id 6 and then identifies itself with the
    client id of S1. *)
Definition scenario_shared_clientId : list Event :=
  scenario_identified ++ [ Message "S2" (MId (JNum 1) (JNum 5)) ].

(** Both sockets join LOBBY1 asserting client id 5; neither identifies. *)
Definition scenario_same_assertion : list Event :=
  [ Connect "S1"; Connect "S2";
    Message "S1" (MJoin (JStr "LOBBY1") (JNum 0) (JNum 5));
    Message "S2" (MJoin (JStr "LOBBY1") (JNum 1) (JNum 5)) ].

(** S2 joins the lobby whose code is the socket id of S1; S3 is connected. *)
Definition scenario_listener : list Event :=
  [ Connect "S1"; Connect "S2"; Connect "S3";
    Message "S2" (MJoin (JStr "S1") (JNum 1) (JNum 6)) ].

Definition offer_to_S1 : JsVal :=
  JObj [("to", JStr "S1"); ("data", JStr "offer")].

(** ** Transitions *)

(** The socket an event is about. *)
Definition subject (e : Event) : string :=
  match e with
  | Connect sid => sid
  | Message sid _ => sid
  | Disconnect sid => sid
  end.

(** The changes of state an event about the socket [sid] can make: none,
    a connection, the listener of ['disconnect'] alone, a close, an
    accepted join, an accepted identify, a leave, and the storing of a
    snapshot.  With [orderly] set, the connection is under an id that is
    not live and the listener of ['disconnect'] does not run alone. *)
Inductive transition (orderly : bool) (sid : string) (σ : State) : State -> Prop :=
| t_none : transition orderly sid σ σ
| t_connection :
    (orderly = true → sockets σ !! sid = None) →
    transition orderly sid σ (on_connection sid σ)
| t_listener :
    orderly = false → live sid σ →
    transition orderly sid σ (on_disconnect sid σ)
| t_close : transition orderly sid σ (close sid σ)
| t_join c k :
    live sid σ →
    accepts c k σ →
    transition orderly sid σ
      {| sockets := <[sid := Some c]> (sockets σ);
         rooms := Adapter.add sid c (rooms σ);
         clients := clients σ;
         states := states σ;
         connectionCount := connectionCount σ |}
| t_id id k :
    live sid σ →
    (∀ k', holds (clients σ) sid k' → k' = k) →
    transition orderly sid σ
      {| sockets := sockets σ;
         rooms := rooms σ;
         clients := <[sid := {| playerId := id; clientId := normalize k |}]> (clients σ);
         states := states σ;
         connectionCount := connectionCount σ |}
| t_leave c :
    sockets σ !! sid = Some (Some c) →
    transition orderly sid σ
      {| sockets := sockets σ;
         rooms := Adapter.del sid c (rooms σ);
         clients := delete sid (clients σ);
         states := states σ;
         connectionCount := connectionCount σ |}
| t_pushstate lobbyCode gameState :
    live sid σ →
    transition orderly sid σ
      {| sockets := sockets σ;
         rooms := rooms σ;
         clients := clients σ;
         states := map_set lobbyCode gameState (states σ);
         connectionCount := connectionCount σ |}.

(** The counter of connections is the number of connected sockets. *)
Definition counts_live (σ : State) : Prop :=
  connectionCount σ = Z.of_nat (size (sockets σ)).

(** The rooms hold connected sockets only, and no room is empty. *)
Definition rooms_live (σ : State) : Prop :=
  (∀ room x, x ∈ Adapter.members room (rooms σ) → live x σ)
  ∧ ∀ room r, rooms σ !! room = Some r → r ≠ ∅.

(** No socket holds the sentinel as its client id. *)
Definition no_sentinel (σ : State) : Prop :=
  ∀ s, ¬ holds (clients σ) s sentinel.

(** ** Configuration read from the environment *)

(** [process.env.X || d], for a variable that is unset ([None]) or set. *)
Definition env_or (x : option string) (d : string) : string :=
  match x with
  | Some s => if truthy (JStr s) then s else d
  | None => d
  end.

(** [!!process.env.HTTPS] *)
Definition httpsEnabled (HTTPS : option string) : bool :=
  match HTTPS with
  | Some s => truthy (JStr s)
  | None => false
  end.

(** [process.env.PORT || (httpsEnabled ? '443' : '9736')] *)
Definition port (PORT HTTPS : option string) : string :=
  env_or PORT (if httpsEnabled HTTPS then "443" else "9736").

(** [process.env.ADDRESS || '127.0.0.1'] *)
Definition address (ADDRESS : option string) : string :=
  env_or ADDRESS "127.0.0.1".

(** The test [!address] that guards [process.exit(1)]. *)
Definition address_unset (ADDRESS : option string) : bool :=
  negb (truthy (JStr (address ADDRESS))).

(** ** The room table *)

Section AdapterFacts.

Implicit Types (rooms : gmap string (gset string)) (id room x : string).

Lemma elem_of_members_add id r room rooms x :
  x ∈ Adapter.members room (Adapter.add id r rooms) ↔
  (room = r ∧ x = id) ∨ x ∈ Adapter.members room rooms.
Proof.
  unfold Adapter.members, Adapter.add.
  destruct (decide (r = room)) as [->|Hne].
  - rewrite lookup_insert_eq. simpl. set_solver.
  - rewrite lookup_insert_ne by done. naive_solver.
Qed.

Lemma elem_of_room_del id (r : gset string) x :
  x ∈ default ∅ (Adapter.room_del id r) ↔ x ∈ r ∧ x ≠ id.
Proof.
  unfold Adapter.room_del. case_decide as He; simpl; [|set_solver].
  split; [set_solver|]. intros [Hx Hn].
  assert (x ∈ r ∖ {[id]}) as Hin by set_solver. rewrite He in Hin. set_solver.
Qed.

Lemma elem_of_members_delAll id room rooms x :
  x ∈ Adapter.members room (Adapter.delAll id rooms) ↔
  x ∈ Adapter.members room rooms ∧ x ≠ id.
Proof.
  unfold Adapter.members, Adapter.delAll. rewrite lookup_omap.
  destruct (rooms !! room) as [r|]; simpl; [|set_solver].
  case_decide as Hin.
  - apply elem_of_room_del.
  - simpl. set_solver.
Qed.

Lemma elem_of_members_del id r room rooms x :
  x ∈ Adapter.members room (Adapter.del id r rooms) ↔
  x ∈ Adapter.members room rooms ∧ ¬ (room = r ∧ x = id).
Proof.
  unfold Adapter.del.
  destruct (rooms !! r) as [m|] eqn:Hr.
  - pose proof (elem_of_room_del id m x) as Hdel.
    destruct (Adapter.room_del id m) as [m'|] eqn:Hm; unfold Adapter.members;
      (destruct (decide (r = room)) as [<-|Hne];
       [ rewrite ?lookup_insert_eq, ?lookup_delete_eq, Hr; simpl in *; naive_solver
       | rewrite ?lookup_insert_ne, ?lookup_delete_ne by done; naive_solver ]).
  - unfold Adapter.members. split; [|naive_solver].
    intros Hx. split; [done|]. intros [-> ->]. rewrite Hr in Hx. set_solver.
Qed.

End AdapterFacts.

(** ** Delivery *)

Lemma elem_of_broadcast room except p σ r q :
  (r, q) ∈ broadcast room except p σ ↔
  q = p ∧ r ∈ Adapter.members room (rooms σ) ∧ (r ∉ except) ∧ live r σ.
Proof.
  unfold broadcast, live. rewrite list_elem_of_fmap. split.
  - intros (x & [= -> ->] & Hx). apply list_elem_of_filter in Hx as [Hl Hx].
    apply elem_of_elements in Hx. apply elem_of_dom in Hl. set_solver.
  - intros (-> & Hm & He & Hl). exists r. split; [done|].
    apply list_elem_of_filter. split; [by apply elem_of_dom|].
    apply elem_of_elements. set_solver.
Qed.

(** ** The scan of the lobby in the ['join'] listener *)

Lemma holds_strict_eq (clients : gmap string Client) s k :
  holds clients s k ↔
  ∃ client, clients !! s = Some client ∧ strict_eq (clientId client) k = true.
Proof.
  unfold holds, strict_eq. split; intros (cl & Hs & Hk); exists cl; split; try done.
  - rewrite Hk. apply Z.eqb_refl.
  - destruct (clientId cl) as [k'|]; [|done]. apply Z.eqb_eq in Hk. by subst.
Qed.

Lemma scan_lobby_None (clients : gmap string Client) sid k l acc :
  scan_lobby clients sid k l acc = None ↔ ∃ s, s ∈ l ∧ holds clients s k.
Proof.
  revert acc. induction l as [|s l IH]; intros acc; simpl.
  - split; [done|]. intros (s & Hs & _). by apply elem_of_nil in Hs.
  - destruct (clients !! s) as [[pid stored]|] eqn:Hs.
    + destruct (strict_eq stored k) eqn:Heq.
      * split; [|done]. intros _. exists s. split; [left|].
        apply holds_strict_eq. eauto.
      * rewrite IH. split.
        -- intros (t & Ht & Hh). exists t. split; [by right|done].
        -- intros (t & Ht & Hh). apply elem_of_cons in Ht as [->|Ht]; [|eauto].
           apply holds_strict_eq in Hh as (cl & Hcl & Hk).
           rewrite Hs in Hcl. injection Hcl as <-. simpl in Hk. congruence.
    + rewrite IH. split.
      * intros (t & Ht & Hh). exists t. split; [by right|done].
      * intros (t & Ht & Hh). apply elem_of_cons in Ht as [->|Ht]; [|eauto].
        destruct Hh as (cl & Hcl & _). congruence.
Qed.

Lemma scan_lobby_Some (clients : gmap string Client) sid k l acc others :
  scan_lobby clients sid k l acc = Some others →
  ∀ s, others !! s =
       if decide (s ∈ l ∧ s ≠ sid) then Some (clients !! s) else acc !! s.
Proof.
  revert acc. induction l as [|t l IH]; intros acc Hscan s; simpl in Hscan.
  - injection Hscan as <-. case_decide as H; [|done].
    destruct H as [H _]. by apply elem_of_nil in H.
  - assert (scan_lobby clients sid k l
              (if decide (t ≠ sid) then <[t := clients !! t]> acc else acc)
            = Some others) as Hrest.
    { destruct (clients !! t) as [[pid stored]|]; [|done].
      by destruct (strict_eq stored k). }
    rewrite (IH _ Hrest s).
    destruct (decide (s ∈ l ∧ s ≠ sid)) as [[Hl Hn]|Hnot].
    + rewrite decide_True; [done|]. split; [by right|done].
    + destruct (decide (t ≠ sid)) as [Ht|Ht].
      * destruct (decide (s = t)) as [->|Hst].
        -- rewrite lookup_insert_eq. rewrite decide_True; [done|].
           split; [left|done].
        -- rewrite lookup_insert_ne by done.
           rewrite decide_False; [done|].
           intros [Hin Hn]. apply elem_of_cons in Hin as [?|?]; naive_solver.
      * rewrite decide_False; [done|].
        intros [Hin Hn]. apply elem_of_cons in Hin as [?|?]; naive_solver.
Qed.

(** ** The listeners, case by case *)

Lemma on_join_rejected σ sid c id k t :
  t ∈ Adapter.members c (rooms σ) → holds (clients σ) t k →
  on_join sid (JStr c) (JNum id) (JNum k) σ = Done (socket_disconnect sid σ) [].
Proof.
  intros Ht Hh. unfold on_join, Adapter.members in *.
  destruct (rooms σ !! c) as [room|]; simpl in Ht; [|set_solver].
  assert (scan_lobby (clients σ) sid k (elements room) ∅ = None) as ->; [|done].
  apply scan_lobby_None. exists t. split; [|done]. by apply elem_of_elements.
Qed.

Lemma on_join_accepted σ sid c id k :
  accepts c k σ →
  ∃ otherClients,
    on_join sid (JStr c) (JNum id) (JNum k) σ =
      (let σ' := {| sockets := <[sid := Some c]> (sockets σ);
                    rooms := Adapter.add sid c (rooms σ);
                    clients := clients σ;
                    states := states σ;
                    connectionCount := connectionCount σ |} in
       Done σ' (broadcast c {[sid]}
                  (PJoin sid {| playerId := id; clientId := normalize k |}) σ'
                ++ [(sid, PSetClients otherClients)]))
    ∧ ∀ s, otherClients !! s =
           if decide (s ∈ Adapter.members c (rooms σ) ∧ s ≠ sid)
           then Some (clients σ !! s) else None.
Proof.
  intros [Hplain Hfree]. unfold on_join, scannable, Adapter.members in *.
  destruct (rooms σ !! c) as [room|] eqn:Hroom; [|rewrite (Hplain eq_refl)];
    simpl in *.
  - destruct (scan_lobby (clients σ) sid k (elements room) ∅) as [others|] eqn:Hscan.
    + exists others. split; [done|]. intros s.
      rewrite (scan_lobby_Some _ _ _ _ _ _ Hscan s), lookup_empty.
      destruct (decide (s ∈ elements room ∧ s ≠ sid)) as [[H1 H2]|Hn].
      * rewrite decide_True; [done|]. split; [by apply elem_of_elements|done].
      * rewrite decide_False; [done|]. intros [H1 H2]. apply Hn.
        split; [by apply elem_of_elements|done].
    + apply scan_lobby_None in Hscan as (t & Ht & Hh).
      apply elem_of_elements in Ht. by destruct (Hfree t Ht).
  - exists ∅. split; [done|]. intros s. rewrite lookup_empty.
    rewrite decide_False; [done|]. set_solver.
Qed.

Lemma close_connected σ sid code :
  sockets σ !! sid = Some code →
  close sid σ =
    {| sockets := delete sid (sockets σ);
       rooms := Adapter.delAll sid (rooms σ);
       clients := delete sid (clients σ);
       states := states σ;
       connectionCount := connectionCount σ - 1 |}.
Proof. intros H. unfold close. by rewrite H. Qed.

(** What a forced disconnect leaves: the socket is gone from the live
    sockets, from every room and from the identity registry, and nothing
    changes for the other sockets. *)
Lemma close_effect σ sid code :
  sockets σ !! sid = Some code →
  ¬ live sid (close sid σ)
  ∧ clients (close sid σ) !! sid = None
  ∧ (∀ room, sid ∉ Adapter.members room (rooms (close sid σ)))
  ∧ states (close sid σ) = states σ
  ∧ ∀ s, s ≠ sid →
      sockets (close sid σ) !! s = sockets σ !! s
      ∧ clients (close sid σ) !! s = clients σ !! s
      ∧ ∀ room, s ∈ Adapter.members room (rooms (close sid σ))
                ↔ s ∈ Adapter.members room (rooms σ).
Proof.
  intros H. rewrite (close_connected _ _ _ H). unfold live. simpl.
  rewrite !lookup_delete_eq. repeat split.
  - by intros [? ?].
  - intros room Hin. apply elem_of_members_delAll in Hin. naive_solver.
  - by rewrite lookup_delete_ne.
  - by rewrite lookup_delete_ne.
  - intros Hin. apply elem_of_members_delAll in Hin. naive_solver.
  - intros Hin. apply elem_of_members_delAll. naive_solver.
Qed.

(** ** Properties of the server *)

Section Properties.

Variable JSON_parse : JsVal -> option JsVal.

(** *** Joining a lobby *)

(** C1 (as amended).  In the scenario as it is written, S1 has joined
    LOBBY1 but has sent no ['id']: the registry holds no identity for S1,
    and S2 receives [setClients] with S1 mapped to [undefined]; S1 receives
    the broadcast [join] of S2 with [{playerId: 1, clientId: 6}].  When S1
    has identified itself with (0, 5) before S2 joins, S2 receives
    [setClients = {S1: {playerId: 0, clientId: 5}}]. *)
Theorem join_scenario :
  emitted (run JSON_parse scenario_joins init) =
    [ ("S1", PSetClients ∅);
      ("S1", PJoin "S2" {| playerId := 1; clientId := Some 6%Z |});
      ("S2", PSetClients {[ "S1" := None ]}) ]
  ∧ emitted (run JSON_parse scenario_identified init) =
    [ ("S1", PSetClients ∅);
      ("S1", PJoin "S2" {| playerId := 1; clientId := Some 6%Z |});
      ("S2", PSetClients {[ "S1" := Some {| playerId := 0; clientId := Some 5%Z |} ]}) ].
Proof. split; vm_compute; reflexivity. Qed.

(** C3 (as amended).  A join that asserts a client id held, through an
    earlier ['id'], by a socket of the lobby is rejected: nothing is sent,
    the joining socket is disconnected and is in no room, and the liveness,
    identity, [code] and room membership of every other socket are as
    before. *)
Theorem join_spoofing_rejected σ sid code c id k t :
  sockets σ !! sid = Some code →
  t ∈ Adapter.members c (rooms σ) →
  holds (clients σ) t k →
  let r := step JSON_parse (Message sid (MJoin (JStr c) (JNum id) (JNum k))) σ in
  emitted r = [] ∧ thrown r = None
  ∧ ¬ live sid (post r)
  ∧ (∀ room, sid ∉ Adapter.members room (rooms (post r)))
  ∧ ∀ s, s ≠ sid →
      sockets (post r) !! s = sockets σ !! s
      ∧ clients (post r) !! s = clients σ !! s
      ∧ ∀ room, s ∈ Adapter.members room (rooms (post r))
                ↔ s ∈ Adapter.members room (rooms σ).
Proof.
  intros Hlive Ht Hh. cbv zeta. unfold step. rewrite Hlive.
  rewrite (on_join_rejected _ _ _ _ _ _ Ht Hh). simpl.
  destruct (close_effect _ _ _ Hlive) as (H1 & _ & H3 & _ & H5).
  unfold socket_disconnect. auto.
Qed.

(** C8 (as amended).  A socket that is in lobby [L] and holds a non-null
    client id is disconnected by a second join for [L] that asserts that
    client id: the scan of the lobby does not leave out the joining
    socket. *)
Theorem rejoin_disconnects σ sid code L id k :
  sockets σ !! sid = Some code →
  sid ∈ Adapter.members L (rooms σ) →
  holds (clients σ) sid k →
  let r := step JSON_parse (Message sid (MJoin (JStr L) (JNum id) (JNum k))) σ in
  ¬ live sid (post r) ∧ emitted r = [] ∧ thrown r = None
  ∧ post r = socket_disconnect sid σ.
Proof.
  intros Hlive Hin Hh. cbv zeta. unfold step. rewrite Hlive.
  destruct (close_effect _ _ _ Hlive) as (H1 & _).
  by rewrite (on_join_rejected σ sid L id k sid Hin Hh).
Qed.

End Properties.

Lemma join_spoofing_rejected_witness :
  let σ := post (run json S1_identified init) in
  let r := step json (Message "S2" (MJoin (JStr "LOBBY1") (JNum 1) (JNum 5))) σ in
  emitted r = [] ∧ ¬ live "S2" (post r)
  ∧ "S1" ∈ Adapter.members "LOBBY1" (rooms (post r)).
Proof.
  intros σ r.
  assert (sockets σ !! "S2" = Some None) as Hlive by (vm_compute; reflexivity).
  assert ("S1" ∈ Adapter.members "LOBBY1" (rooms σ)) as Hin by compute_done.
  assert (holds (clients σ) "S1" 5) as Hh.
  { exists {| playerId := 0; clientId := Some 5%Z |}. split; vm_compute; reflexivity. }
  destruct (join_spoofing_rejected json σ "S2" None "LOBBY1" 1 5 "S1" Hlive Hin Hh)
    as (He & _ & Hd & _ & Ho).
  split; [exact He|]. split; [exact Hd|].
  apply (Ho "S1"); [discriminate|exact Hin].
Defined.

Lemma rejoin_disconnects_witness :
  let σ := post (run json S1_identified init) in
  ¬ live "S1"
      (post (step json (Message "S1" (MJoin (JStr "LOBBY1") (JNum 0) (JNum 5))) σ)).
Proof.
  intros σ.
  assert (sockets σ !! "S1" = Some (Some "LOBBY1")) as Hlive by (vm_compute; reflexivity).
  assert ("S1" ∈ Adapter.members "LOBBY1" (rooms σ)) as Hin by compute_done.
  assert (holds (clients σ) "S1" 5) as Hh.
  { exists {| playerId := 0; clientId := Some 5%Z |}. split; vm_compute; reflexivity. }
  exact (proj1 (rejoin_disconnects json σ "S1" _ "LOBBY1" 0 5 Hlive Hin Hh)).
Defined.

(** C8, for a bound identity whose client id is [null]: S1 is in LOBBY1,
    its stored client id is [null], and it joins LOBBY1 again asserting the
    same client id, which a client writes as the sentinel; the join is
    accepted and S1 stays connected and in the lobby. *)
Lemma rejoin_without_clientId_accepted :
  let σ := post (run json S1_without_clientId init) in
  let r := step json
             (Message "S1" (MJoin (JStr "LOBBY1") (JNum 0) (JNum sentinel))) σ in
  (clients σ !! "S1" = Some {| playerId := 0; clientId := None |}
   ∧ "S1" ∈ Adapter.members "LOBBY1" (rooms σ))
  ∧ sockets (post r) !! "S1" = Some (Some "LOBBY1")
  ∧ "S1" ∈ Adapter.members "LOBBY1" (rooms (post r)).
Proof.
  intros σ r. split; [split; [vm_compute; reflexivity|compute_done]|].
  split; [vm_compute; reflexivity|compute_done].
Qed.

(** ** The ['id'] listener, case by case *)

Lemma on_id_accepted σ sid code id k :
  (∀ k', holds (clients σ) sid k' → k' = k) →
  on_id sid code (JNum id) (JNum k) σ =
    (let client := {| playerId := id; clientId := normalize k |} in
     let σ' := {| sockets := sockets σ;
                  rooms := rooms σ;
                  clients := <[sid := client]> (clients σ);
                  states := states σ;
                  connectionCount := connectionCount σ |} in
     Done σ' (broadcast (room_key code) {[sid]} (PSetClient sid client) σ')).
Proof.
  intros Hk. unfold on_id.
  destruct (clients σ !! sid) as [[pid [stored|]]|] eqn:Hc; try done.
  rewrite (Hk stored), Z.eqb_refl; [done|].
  exists {| playerId := pid; clientId := Some stored |}. done.
Qed.

Lemma on_id_rejected σ sid code id k k' :
  holds (clients σ) sid k' → k' ≠ k →
  on_id sid code (JNum id) (JNum k) σ = Done (socket_disconnect sid σ) [].
Proof.
  intros ([pid stored] & Hc & Hs) Hne. simpl in Hs. subst stored.
  unfold on_id. rewrite Hc.
  destruct (Z.eqb_spec k' k) as [?|_]; [done|]. done.
Qed.

Section Identify.

Variable JSON_parse : JsVal -> option JsVal.

(** C5 (as amended).  For a socket whose bound identity has the non-null
    client id [k]: an ['id'] with another client id is rejected, sends
    nothing and disconnects the socket; the asserted identity is not stored,
    the disconnection clears the identity of the socket, and the identity of
    every other socket is as before.  An ['id'] with [k] itself is accepted:
    the socket stays connected, its identity is the asserted one, and
    repeating the message gives the same state and the same [setClient]
    broadcast again. *)
Theorem reidentify σ sid code pid k id k' :
  sockets σ !! sid = Some code →
  clients σ !! sid = Some {| playerId := pid; clientId := Some k |} →
  let e := Message sid (MId (JNum id) (JNum k')) in
  let r := step JSON_parse e σ in
  (k' ≠ k →
     emitted r = [] ∧ ¬ live sid (post r)
     ∧ clients (post r) !! sid = None
     ∧ ∀ s, s ≠ sid → clients (post r) !! s = clients σ !! s)
  ∧ (k' = k →
     live sid (post r)
     ∧ clients (post r) =
         <[sid := {| playerId := id; clientId := normalize k |}]> (clients σ)
     ∧ sockets (post r) = sockets σ ∧ rooms (post r) = rooms σ
     ∧ states (post r) = states σ
     ∧ emitted r =
         broadcast (room_key code) {[sid]}
           (PSetClient sid {| playerId := id; clientId := normalize k |}) σ
     ∧ step JSON_parse e (post r) = r).
Proof.
  intros Hlive Hc e r. subst e r. unfold step. rewrite Hlive.
  assert (holds (clients σ) sid k) as Hh by (eexists; eauto).
  split.
  - intros Hne. rewrite (on_id_rejected _ _ _ _ _ _ Hh (not_eq_sym Hne)). simpl.
    destruct (close_effect _ _ _ Hlive) as (H1 & H2 & _ & _ & H5).
    unfold socket_disconnect. repeat split; try done. intros s Hs. by apply H5.
  - intros ->.
    assert (∀ k', holds (clients σ) sid k' → k' = k) as Hsame.
    { intros k' (cl & Hcl & Hk'). rewrite Hc in Hcl. injection Hcl as <-.
      simpl in Hk'. congruence. }
    rewrite (on_id_accepted _ _ code id _ Hsame). simpl.
    repeat split; try done.
    + unfold live. simpl. by rewrite Hlive.
    + rewrite Hlive. unfold on_id. simpl. rewrite lookup_insert_eq.
      rewrite insert_insert_eq. unfold normalize.
      destruct (k =? 2 ^ 32 - 1)%Z; [done|]. by rewrite Z.eqb_refl.
Qed.

(** C6 (as amended).  For a socket that holds no non-null client id, an
    ['id'] carrying the sentinel [2^32 - 1] is accepted and stores an
    identity whose client id is [null]; the rest of the state is as before,
    and [setClient] with that identity goes to the other sockets of the
    room of the socket's [code], and to no one else. *)
Theorem identify_sentinel σ sid code id :
  sockets σ !! sid = Some code →
  (∀ k, ¬ holds (clients σ) sid k) →
  let r := step JSON_parse (Message sid (MId (JNum id) (JNum sentinel))) σ in
  live sid (post r) ∧ thrown r = None
  ∧ clients (post r) = <[sid := {| playerId := id; clientId := None |}]> (clients σ)
  ∧ sockets (post r) = sockets σ ∧ rooms (post r) = rooms σ
  ∧ states (post r) = states σ
  ∧ ∀ x p, (x, p) ∈ emitted r ↔
      p = PSetClient sid {| playerId := id; clientId := None |}
      ∧ x ∈ Adapter.members (room_key code) (rooms σ) ∧ x ≠ sid ∧ live x σ.
Proof.
  intros Hlive Hnone r. subst r. unfold step. rewrite Hlive.
  rewrite (on_id_accepted _ _ code id sentinel); [|intros k' Hk'; by destruct (Hnone k')].
  simpl. split; [unfold live; simpl; by rewrite Hlive|].
  do 5 (split; [done|]).
  intros x p. rewrite elem_of_broadcast. simpl. unfold live. simpl.
  rewrite elem_of_singleton. naive_solver.
Qed.

(** C9 (as amended).  A socket that has joined no lobby ([code] is still
    [null]), that holds no client id other than the one it asserts, and
    that sends an ['id'] with two numbers gets a bound identity and stays
    connected: the listener does not ask for a lobby. *)
Theorem identify_without_lobby σ sid id k :
  sockets σ !! sid = Some None →
  (∀ k', holds (clients σ) sid k' → k' = k) →
  let r := step JSON_parse (Message sid (MId (JNum id) (JNum k))) σ in
  live sid (post r) ∧ thrown r = None
  ∧ clients (post r) !! sid = Some {| playerId := id; clientId := normalize k |}.
Proof.
  intros Hlive Hk r. subst r. unfold step. rewrite Hlive.
  rewrite (on_id_accepted _ _ None id k Hk). simpl.
  repeat split; try done.
  - unfold live. simpl. by rewrite Hlive.
  - by rewrite lookup_insert_eq.
Qed.

End Identify.

(** ** The snapshot map *)

Lemma same_value_zero_eq a b : same_value_zero a b = true → a = b.
Proof.
  destruct a, b; simpl; try done.
  - intros H. by apply Bool.eqb_prop in H as ->.
  - intros H. by apply Z.eqb_eq in H as ->.
  - intros H. by apply String.eqb_eq in H as ->.
Qed.

Lemma map_get_set {V : Type} (k q : JsVal) (v : V) (m : list (JsVal * V)) :
  map_get q (map_set k v m) =
    if same_value_zero k q then Some v else map_get q m.
Proof.
  induction m as [|[k' v'] m IH]; simpl.
  - done.
  - destruct (same_value_zero k' k) eqn:Hk; simpl.
    + apply same_value_zero_eq in Hk as ->. by destruct (same_value_zero k q).
    + rewrite IH. destruct (same_value_zero k' q) eqn:Hq; [|done].
      apply same_value_zero_eq in Hq. subst q.
      destruct (same_value_zero k k') eqn:Hkk; [|done].
      pose proof (same_value_zero_eq _ _ Hkk) as Heq. subst k'. congruence.
Qed.

Lemma close_states sid σ : states (close sid σ) = states σ.
Proof. unfold close. by destruct (sockets σ !! sid). Qed.

Lemma on_join_states sid c id clientId σ :
  states (post (on_join sid c id clientId σ)) = states σ.
Proof.
  unfold on_join, socket_disconnect.
  destruct c, id, clientId; simpl; try apply close_states.
  destruct (rooms σ !! s) as [room|]; [|by destruct (inherited s)].
  destruct (scan_lobby _ _ _ _ _); [done|]. apply close_states.
Qed.

Lemma on_id_states sid code id clientId σ :
  states (post (on_id sid code id clientId σ)) = states σ.
Proof.
  unfold on_id, socket_disconnect.
  destruct id, clientId; simpl; try apply close_states.
  destruct (clients σ !! sid) as [[pid [stored|]]|]; try done.
  destruct (negb _); [apply close_states|done].
Qed.

Lemma on_leave_states sid code σ :
  states (post (on_leave sid code σ)) = states σ.
Proof. unfold on_leave. destruct code as [c|]; [|done]. by destruct (String.eqb c ""). Qed.

Lemma on_signal_states sid signal σ :
  states (post (on_signal sid signal σ)) = states σ.
Proof.
  unfold on_signal, socket_disconnect.
  destruct (typeof signal); simpl; try apply close_states.
  destruct (get_prop signal "data") as [e|data], (get_prop signal "to") as [e'|to];
    try done.
  destruct to; simpl; try apply close_states.
  destruct (truthy data && _); [done|apply close_states].
Qed.

Section PushstateAndSignal.

Variable JSON_parse : JsVal -> option JsVal.

(** An event that stores no snapshot under [code] leaves the answer of the
    query for [code] as it is. *)
Lemma step_get_gameState code e σ :
  ¬ pushes JSON_parse code e →
  get_gameState (Some code) (post (step JSON_parse e σ)) = get_gameState (Some code) σ.
Proof.
  intros Hno. unfold get_gameState. destruct (truthy (JStr code)); [|done].
  destruct e as [sid|sid m|sid]; simpl.
  - done.
  - destruct (sockets σ !! sid) as [code0|]; [|done].
    destruct m as [c id cid|id cid|id state| |signal|]; [| | | | |done].
    + by rewrite on_join_states.
    + by rewrite on_id_states.
    + unfold on_pushstate. simpl in Hno.
      destruct (JSON_parse state) as [g|]; [|done].
      destruct (get_prop g "lobbyCode") as [err|lobbyCode] eqn:Hl; [done|]. simpl.
      rewrite map_get_set.
      destruct (same_value_zero lobbyCode (JStr code)) eqn:Heq; [|done].
      apply same_value_zero_eq in Heq as ->. destruct Hno. eauto.
    + by rewrite on_leave_states.
    + by rewrite on_signal_states.
  - by rewrite close_states.
Qed.

Lemma run_get_gameState code es σ :
  Forall (fun e => ¬ pushes JSON_parse code e) es →
  get_gameState (Some code) (post (run JSON_parse es σ)) = get_gameState (Some code) σ.
Proof.
  intros Hno. revert σ. induction Hno as [|e es He Hes IH]; intros σ; [done|].
  cbn [run]. destruct (thrown (step JSON_parse e σ)); cbn [post].
  - by apply step_get_gameState.
  - rewrite IH. by apply step_get_gameState.
Qed.

(** C7 (as amended).  For a lobby code that is not the empty string: after
    a ['pushstate'] of a connected socket whose text parses to a snapshot
    with that [lobbyCode], and any further events that store nothing under
    the code, the query for the code answers exactly that snapshot, whatever
    was stored before; and in a run from the initial state in which nothing
    was stored under the code, the query answers [undefined]. *)
Theorem pushstate_then_query σ sid id state gameState code es es' :
  live sid σ →
  JSON_parse state = Some gameState →
  get_prop gameState "lobbyCode" = inr (JStr code) →
  code ≠ "" →
  Forall (fun e => ¬ pushes JSON_parse code e) es →
  Forall (fun e => ¬ pushes JSON_parse code e) es' →
  get_gameState (Some code)
    (post (run JSON_parse (Message sid (MPushstate id state) :: es) σ))
    = Some gameState
  ∧ get_gameState (Some code) (post (run JSON_parse es' init)) = None.
Proof.
  intros [code0 Hlive] Hparse Hcode Hne Hes Hes'. split.
  - assert (get_gameState (Some code)
              (post (step JSON_parse (Message sid (MPushstate id state)) σ))
            = Some gameState) as Hpush.
    { unfold step, on_pushstate. rewrite Hlive, Hparse, Hcode. simpl.
      destruct (String.eqb_spec code "") as [?|_]; [done|]. simpl.
      rewrite map_get_set. simpl. by rewrite String.eqb_refl. }
    cbn [run].
    destruct (thrown (step JSON_parse (Message sid (MPushstate id state)) σ));
      [done|].
    cbn [post]. by rewrite run_get_gameState.
  - rewrite run_get_gameState by done. unfold get_gameState. simpl.
    by destruct (negb _).
Qed.

(** C10.  A ['pushstate'] whose text does not parse throws the
    [SyntaxError] of [JSON.parse] before anything is written: the state,
    and with it the snapshot map, is the one before the message, and
    nothing is sent. *)
Theorem pushstate_parse_failure σ sid code id state :
  sockets σ !! sid = Some code →
  JSON_parse state = None →
  step JSON_parse (Message sid (MPushstate id state)) σ = Throw SyntaxError σ.
Proof.
  intros Hlive Hparse. unfold step, on_pushstate. by rewrite Hlive, Hparse.
Qed.

(** *** Relaying a signal *)

(** What the relay does with a well-formed signal [{to, data}] of a
    connected socket: nothing changes in the state, and [{data, from}] is
    delivered to exactly the connected sockets of the room named [to],
    whether or not they are in a lobby.  That is the socket [to] alone
    when the room of its id holds no other socket, which is the case as
    long as no socket has joined a lobby whose code is that id. *)
Theorem signal_delivery σ sid code fields to data :
  sockets σ !! sid = Some code →
  field "to" fields = JStr to →
  to ≠ "" →
  field "data" fields = data →
  truthy data = true →
  let r := step JSON_parse (Message sid (MSignal (JObj fields))) σ in
  post r = σ ∧ thrown r = None
  ∧ (∀ x p, (x, p) ∈ emitted r ↔
       p = PSignal data sid ∧ x ∈ Adapter.members to (rooms σ) ∧ live x σ)
  ∧ (Adapter.members to (rooms σ) = {[to]} → live to σ →
     emitted r = [(to, PSignal data sid)]).
Proof.
  intros Hlive Hto Hne Hdata Htruthy r. subst r. unfold step. rewrite Hlive.
  unfold on_signal. simpl. rewrite Hto, Hdata, Htruthy. simpl.
  destruct (String.eqb_spec to "") as [?|_]; [done|]. simpl.
  split; [done|]. split; [done|]. split.
  - intros x p. rewrite elem_of_broadcast. set_solver.
  - intros Hroom Hl. unfold broadcast. rewrite Hroom.
    replace ({[to]} ∖ ∅ : gset string) with ({[to]} : gset string) by set_solver.
    rewrite elements_singleton.
    rewrite filter_cons_True by (by apply elem_of_dom). done.
Qed.

End PushstateAndSignal.

(** ** Client ids within a room *)

Lemma holds_delete (clients : gmap string Client) sid s k :
  holds (delete sid clients) s k → holds clients s k ∧ s ≠ sid.
Proof.
  intros (cl & Hcl & Hk). apply lookup_delete_Some in Hcl as [Hne Hcl].
  split; [by exists cl|done].
Qed.

Lemma holds_insert (clients : gmap string Client) sid client s k :
  holds (<[sid := client]> clients) s k →
  (s = sid ∧ clientId client = Some k) ∨ (s ≠ sid ∧ holds clients s k).
Proof.
  intros (cl & Hcl & Hk). apply lookup_insert_Some in Hcl as [[-> ->]|[Hne Hcl]].
  - by left.
  - right. split; [done|by exists cl].
Qed.




Lemma close_identities_live sid σ :
  identities_live σ → identities_live (close sid σ).
Proof.
  unfold close. destruct (sockets σ !! sid); [|done].
  intros Hl s. unfold live. simpl. rewrite !lookup_delete_is_Some.
  intros [Hne Hs]. split; [done|]. by apply Hl.
Qed.



Lemma on_disconnect_identities_live sid σ :
  identities_live σ → identities_live (on_disconnect sid σ).
Proof.
  intros Hl s Hs. simpl in Hs. apply lookup_delete_is_Some in Hs as [_ Hs].
  by apply Hl.
Qed.

Lemma on_connection_identities_live sid σ :
  identities_live σ → identities_live (on_connection sid σ).
Proof.
  intros Hl s Hs. unfold live. simpl. apply lookup_insert_is_Some'.
  right. by apply Hl.
Qed.

(** The three ways a well-typed join ends. *)
Lemma on_join_cases σ sid c id k :
  on_join sid (JStr c) (JNum id) (JNum k) σ = Done (socket_disconnect sid σ) []
  ∨ (on_join sid (JStr c) (JNum id) (JNum k) σ = Throw TypeError σ
     ∧ rooms σ !! c = None ∧ inherited c = true)
  ∨ (accepts c k σ
     ∧ sockets (post (on_join sid (JStr c) (JNum id) (JNum k) σ))
         = <[sid := Some c]> (sockets σ)
     ∧ rooms (post (on_join sid (JStr c) (JNum id) (JNum k) σ))
         = Adapter.add sid c (rooms σ)
     ∧ clients (post (on_join sid (JStr c) (JNum id) (JNum k) σ)) = clients σ).
Proof.
  unfold on_join, accepts, scannable, Adapter.members.
  destruct (rooms σ !! c) as [room|] eqn:Hroom; simpl.
  - destruct (scan_lobby (clients σ) sid k (elements room) ∅) as [others|] eqn:Hscan.
    + right. right. split; [|done]. split; [done|]. intros t Ht Hh.
      assert (scan_lobby (clients σ) sid k (elements room) ∅ = None) as Hn.
      { apply scan_lobby_None. exists t. split; [by apply elem_of_elements|done]. }
      congruence.
    + by left.
  - destruct (inherited c) eqn:Hin.
    + right. left. done.
    + right. right. split; [|done]. split; [done|]. set_solver.
Qed.

(** The two ways a well-typed identify ends. *)
Lemma on_id_cases σ sid code id k :
  on_id sid code (JNum id) (JNum k) σ = Done (socket_disconnect sid σ) []
  ∨ ((∀ k', holds (clients σ) sid k' → k' = k)
     ∧ sockets (post (on_id sid code (JNum id) (JNum k) σ)) = sockets σ
     ∧ rooms (post (on_id sid code (JNum id) (JNum k) σ)) = rooms σ
     ∧ clients (post (on_id sid code (JNum id) (JNum k) σ))
         = <[sid := {| playerId := id; clientId := normalize k |}]> (clients σ)).
Proof.
  unfold on_id.
  destruct (clients σ !! sid) as [[pid [stored|]]|] eqn:Hc.
  - destruct (Z.eqb_spec stored k) as [->|Hne]; simpl; [|by left].
    right. split; [|done]. intros k' (cl & Hcl & Hk).
    rewrite Hc in Hcl. injection Hcl as <-. simpl in Hk. congruence.
  - right. split; [|done]. intros k' (cl & Hcl & Hk).
    rewrite Hc in Hcl. injection Hcl as <-. done.
  - right. split; [|done]. intros k' (cl & Hcl & Hk). congruence.
Qed.

Section Uniqueness.

Variable JSON_parse : JsVal -> option JsVal.


End Uniqueness.

(** ** The room of a socket's own id *)

Lemma close_own_room name sid σ : own_room name σ → own_room name (close sid σ).
Proof.
  unfold close. destruct (sockets σ !! sid) as [code|] eqn:Hs; [|done].
  intros [Hcode Hroom]. split; simpl.
  - intros s c Hc. apply lookup_delete_Some in Hc as [_ Hc]. by apply (Hcode s).
  - intros x. rewrite elem_of_members_delAll, Hroom. unfold live. simpl.
    rewrite lookup_delete_is_Some. naive_solver.
Qed.

Section OwnRoom.

Variable JSON_parse : JsVal -> option JsVal.

Lemma step_own_room name e σ :
  ¬ joins name e → own_room name σ →
  own_room name (post (step JSON_parse e σ)).
Proof.
  intros Hno Hown.
  assert (∀ sid, own_room name (socket_disconnect sid σ)) as Hclose
    by (intros sid; by apply close_own_room).
  destruct e as [sid|sid m|sid]; cbn [step].
  - destruct Hown as [Hcode Hroom]. split; simpl.
    + intros s c Hc. apply lookup_insert_Some in Hc as [[_ ?]|[_ Hc]]; [done|].
      by apply (Hcode s).
    + intros x. rewrite elem_of_members_add, Hroom. unfold live. simpl.
      rewrite lookup_insert_is_Some'. split.
      * intros [[-> ->]|[-> Hl]]; split; auto.
      * intros [-> [->|Hl]]; [by left|by right].
  - destruct (sockets σ !! sid) as [code|] eqn:Hs; [|done].
    destruct m as [c id cid|id cid|id state| |signal|]; [| | | | |done].
    + destruct c as [| | | |c|]; try apply Hclose.
      destruct id as [| | |id| |]; try apply Hclose.
      destruct cid as [| | |k| |]; try apply Hclose.
      destruct (on_join_cases σ sid c id k)
        as [->|[[-> _]|(_ & Hso & Hro & _)]]; [apply Hclose|done|].
      simpl in Hno. destruct Hown as [Hcode Hroom]. split.
      * intros s c' Hc. rewrite Hso in Hc.
        apply lookup_insert_Some in Hc as [[_ ?]|[_ Hc]]; [congruence|].
        by apply (Hcode s).
      * intros x. rewrite Hro, elem_of_members_add, Hroom. unfold live.
        rewrite Hso, lookup_insert_is_Some'. split.
        -- intros [[<- _]|?]; [done|naive_solver].
        -- intros [-> [->|Hl]]; right; (split; [done|]); [by eexists|done].
    + destruct id as [| | |id| |]; try apply Hclose.
      destruct cid as [| | |k| |]; try apply Hclose.
      destruct (on_id_cases σ sid code id k) as [->|(_ & Hso & Hro & _)];
        [apply Hclose|].
      unfold own_room, live. by rewrite Hso, Hro.
    + unfold on_pushstate. destruct (JSON_parse state) as [g|]; [|done].
      by destruct (get_prop g "lobbyCode").
    + unfold on_leave. destruct code as [c|]; [|done].
      destruct (String.eqb c ""); [done|].
      destruct Hown as [Hcode Hroom]. split; [done|]. simpl.
      intros x. rewrite elem_of_members_del, Hroom. unfold live. simpl.
      pose proof (Hcode sid c Hs). naive_solver.
    + unfold on_signal. destruct (typeof signal); try apply Hclose.
      destruct (get_prop signal "data") as [err|data],
               (get_prop signal "to") as [err'|to]; try done.
      destruct to; try apply Hclose.
      destruct (truthy data && _); [done|apply Hclose].
  - simpl. by apply close_own_room.
Qed.

Lemma run_own_room name es σ :
  Forall (fun e => ¬ joins name e) es → own_room name σ →
  own_room name (post (run JSON_parse es σ)).
Proof.
  intros Hno. revert σ. induction Hno as [|e es He Hes IH]; intros σ Hown; [done|].
  cbn [run]. destruct (thrown (step JSON_parse e σ)); cbn [post].
  - by apply step_own_room.
  - apply IH. by apply step_own_room.
Qed.

(** In a run from the initial state in which no socket joins the lobby
    whose code is [name], the room [name] holds the connected socket of
    that id and nothing else: a signal addressed to it reaches it alone. *)
Lemma own_room_alone name es :
  Forall (fun e => ¬ joins name e) es →
  live name (post (run JSON_parse es init)) →
  Adapter.members name (rooms (post (run JSON_parse es init))) = {[ name ]}.
Proof.
  intros Hno Hl.
  destruct (run_own_room name es init Hno) as [_ Hroom].
  - split; [done|]. intros x. unfold Adapter.members, live. simpl.
    rewrite !lookup_empty. simpl. split; [set_solver|]. intros [_ [? ?]]. done.
  - apply set_eq. intros x. rewrite Hroom, elem_of_singleton. naive_solver.
Qed.

End OwnRoom.

(** ** The properties on concrete runs *)

(** The state in which S1 is in LOBBY1 with client id 5 and S2 is
    connected. *)
Lemma S1_identified_clients :
  clients (post (run json S1_identified init))
  = {[ "S1" := {| playerId := 0; clientId := Some 5%Z |} ]}.
Proof. vm_compute. reflexivity. Qed.

Lemma S1_identified_holds s k :
  holds (clients (post (run json S1_identified init))) s k → s = "S1".
Proof.
  rewrite S1_identified_clients. intros (cl & Hcl & _).
  by apply lookup_singleton_Some in Hcl as [<- _].
Qed.

(** C1, the scenario as the specification writes it: S1 has sent no
    ['id'], and what S2 receives maps S1 to [undefined], not to
    [{playerId: 0, clientId: 5}]. *)
Lemma join_scenario_no_identity :
  In ("S2", PSetClients {[ "S1" := None ]})
     (emitted (run json scenario_joins init))
  ∧ ¬ In ("S2", PSetClients {[ "S1" := Some {| playerId := 0; clientId := Some 5%Z |} ]})
         (emitted (run json scenario_joins init)).
Proof.
  split.
  - vm_compute. right. right. left. reflexivity.
  - vm_compute. intros [H|[H|[H|[]]]]; discriminate H.
Qed.




(** C3: S1 and S2 join LOBBY1 asserting the same client id 5 and neither
    has sent an ['id']: the second join is accepted. *)
Lemma same_assertion_accepted :
  let σ := post (run json scenario_same_assertion init) in
  live "S2" σ
  ∧ "S2" ∈ Adapter.members "LOBBY1" (rooms σ)
  ∧ sockets σ !! "S2" = Some (Some "LOBBY1").
Proof. intros σ. split; [compute_done|]. split; [compute_done|]. vm_compute. reflexivity. Qed.

(** C4, the defect: a signal [{to: S1, data}] is to reach the session S1
    and no other session.  S2 has joined the lobby whose code is the
    socket id of S1, and the signal of S3 addressed to S1 is delivered to
    S1 and to S2: lobby codes and socket ids name rooms of one table. *)
Lemma signal_overheard :
  emitted (step json (Message "S3" (MSignal offer_to_S1))
             (post (run json scenario_listener init)))
  = [ ("S1", PSignal (JStr "offer") "S3"); ("S2", PSignal (JStr "offer") "S3") ].
Proof. vm_compute. reflexivity. Qed.

Lemma signal_delivery_witness :
  let σ := post (run json S1_identified init) in
  emitted (step json (Message "S2" (MSignal offer_to_S1)) σ)
  = [ ("S1", PSignal (JStr "offer") "S2") ].
Proof.
  intros σ.
  assert (sockets σ !! "S2" = Some None) as Hlive by (vm_compute; reflexivity).
  assert ("S1" ≠ "") as Hne by discriminate.
  assert (Adapter.members "S1" (rooms σ) = {[ "S1" ]}) as Hroom
    by (vm_compute; reflexivity).
  assert (live "S1" σ) as Hl by compute_done.
  exact (proj2 (proj2 (proj2
    (signal_delivery json σ "S2" None
       [("to", JStr "S1"); ("data", JStr "offer")] "S1" (JStr "offer")
       Hlive eq_refl Hne eq_refl eq_refl))) Hroom Hl).
Defined.

(** C5: S1 holds client id 5 and identifies itself with 6; it is
    disconnected, and its stored identity is not left as it was: it is
    removed. *)
Lemma rejected_identify_clears_identity :
  let σ := post (run json S1_identified init) in
  let r := step json (Message "S1" (MId (JNum 0) (JNum 6))) σ in
  clients σ !! "S1" = Some {| playerId := 0; clientId := Some 5%Z |}
  ∧ clients (post r) !! "S1" = None.
Proof. intros σ r. split; vm_compute; reflexivity. Qed.

Lemma reidentify_witness :
  let σ := post (run json S1_identified init) in
  let r := step json (Message "S1" (MId (JNum 0) (JNum 6))) σ in
  emitted r = [] ∧ ¬ live "S1" (post r)
  ∧ clients (post r) !! "S1" = None
  ∧ ∀ s, s ≠ "S1" → clients (post r) !! s = clients σ !! s.
Proof.
  intros σ r.
  assert (sockets σ !! "S1" = Some (Some "LOBBY1")) as Hlive by (vm_compute; reflexivity).
  assert (clients σ !! "S1" = Some {| playerId := 0; clientId := Some 5%Z |}) as Hc
    by (vm_compute; reflexivity).
  assert (6 ≠ 5)%Z as Hne by discriminate.
  exact (proj1 (reidentify json σ "S1" _ 0 5 0 6 Hlive Hc) Hne).
Defined.

(** C6: S1 holds client id 5; an ['id'] carrying the sentinel is rejected
    and stores no identity.  And on a socket without identity, an ['id']
    that supplies no client id is ill-typed and disconnects the socket,
    while one that carries the sentinel does not. *)
Lemma sentinel_identify_rejected :
  let σ := post (run json S1_identified init) in
  let r := step json (Message "S1" (MId (JNum 0) (JNum sentinel))) σ in
  let σ0 := post (run json [Connect "S1"] init) in
  (sockets (post r) !! "S1" = None ∧ clients (post r) !! "S1" = None)
  ∧ sockets (post (step json (Message "S1" (MId (JNum 0) JUndefined)) σ0)) !! "S1"
    = None
  ∧ sockets (post (step json (Message "S1" (MId (JNum 0) (JNum sentinel))) σ0)) !! "S1"
    = Some None.
Proof. intros σ r σ0. repeat split; vm_compute; reflexivity. Qed.

Lemma identify_sentinel_witness :
  let σ := post (run json [Connect "S1"] init) in
  let r := step json (Message "S1" (MId (JNum 7) (JNum sentinel))) σ in
  live "S1" (post r)
  ∧ clients (post r) = <["S1" := {| playerId := 7; clientId := None |}]> (clients σ).
Proof.
  intros σ r.
  assert (sockets σ !! "S1" = Some None) as Hlive by (vm_compute; reflexivity).
  assert (∀ k, ¬ holds (clients σ) "S1" k) as Hnone.
  { intros k (cl & Hcl & _). vm_compute in Hcl. discriminate Hcl. }
  destruct (identify_sentinel json σ "S1" None 7 Hlive Hnone) as (H1 & _ & H3 & _).
  exact (conj H1 H3).
Defined.

(** C7: a snapshot pushed with the empty string as [lobbyCode] is stored,
    and the query for the empty code answers [undefined]: the query treats
    an empty [roomCode] as no [roomCode]. *)
Lemma empty_code_not_queryable :
  let σ := post (run json
             [ Connect "S1";
               Message "S1" (MPushstate (JNum 0) (JStr (snapshot_text ""))) ] init) in
  states σ = [(JStr "", snapshot_value "")]
  ∧ get_gameState (Some "") σ = None.
Proof. intros σ. split; vm_compute; reflexivity. Qed.

Lemma pushstate_then_query_witness :
  let σ := post (run json [Connect "S1"] init) in
  let push := Message "S1" (MPushstate (JNum 0) (JStr (snapshot_text "ABCDE"))) in
  get_gameState (Some "ABCDE") (post (run json [push; Message "S1" MLeave] σ))
    = Some (snapshot_value "ABCDE")
  ∧ get_gameState (Some "ABCDE") (post (run json [Connect "S1"] init)) = None.
Proof.
  intros σ push.
  assert (live "S1" σ) as Hlive by compute_done.
  assert ("ABCDE" ≠ "") as Hne by discriminate.
  assert (Forall (fun e => ¬ pushes json "ABCDE" e) [Message "S1" MLeave]) as Hes.
  { constructor; [|constructor]. intros H. exact H. }
  assert (Forall (fun e => ¬ pushes json "ABCDE" e) [Connect "S1"]) as Hes'.
  { constructor; [|constructor]. intros H. exact H. }
  exact (pushstate_then_query json σ "S1" (JNum 0) (JStr (snapshot_text "ABCDE"))
           (snapshot_value "ABCDE") "ABCDE" _ _ Hlive eq_refl eq_refl Hne Hes Hes').
Defined.

(** C9, for a socket that already holds a client id: S1 has joined no
    lobby and has identified itself with 5; an ['id'] with 6 disconnects it
    and stores nothing. *)
Lemma identify_conflict_without_lobby :
  let σ := post (run json [Connect "S1"; Message "S1" (MId (JNum 0) (JNum 5))] init) in
  let r := step json (Message "S1" (MId (JNum 0) (JNum 6))) σ in
  sockets σ !! "S1" = Some None
  ∧ sockets (post r) !! "S1" = None
  ∧ clients (post r) !! "S1" = None.
Proof. intros σ r. repeat split; vm_compute; reflexivity. Qed.

Lemma identify_without_lobby_witness :
  let σ := post (run json [Connect "S1"] init) in
  let r := step json (Message "S1" (MId (JNum 0) (JNum 5))) σ in
  live "S1" (post r) ∧ thrown r = None
  ∧ clients (post r) !! "S1" = Some {| playerId := 0; clientId := normalize 5 |}.
Proof.
  intros σ r.
  assert (sockets σ !! "S1" = Some None) as Hlive by (vm_compute; reflexivity).
  assert (∀ k', holds (clients σ) "S1" k' → k' = 5%Z) as Hk.
  { intros k (cl & Hcl & _). vm_compute in Hcl. discriminate Hcl. }
  exact (identify_without_lobby json σ "S1" 0 5 Hlive Hk).
Defined.

Lemma pushstate_parse_failure_witness :
  let σ := post (run json [Connect "S1"] init) in
  step json (Message "S1" (MPushstate (JNum 0) (JStr "{lobbyCode"))) σ
  = Throw SyntaxError σ.
Proof.
  intros σ.
  assert (sockets σ !! "S1" = Some None) as Hlive by (vm_compute; reflexivity).
  exact (pushstate_parse_failure json σ "S1" None (JNum 0) (JStr "{lobbyCode")
           Hlive eq_refl).
Defined.

(** ** Every event is a transition *)

Lemma transition_close o sid σ : transition o sid σ (socket_disconnect sid σ).
Proof. apply t_close. Qed.

Section Transitions.

Variable JSON_parse : JsVal -> option JsVal.

Lemma step_transition o e σ :
  (o = true → orderly_event e σ) →
  transition o (subject e) σ (post (step JSON_parse e σ)).
Proof.
  intros Ho. destruct e as [sid|sid m|sid]; cbn [step subject].
  - by apply t_connection.
  - destruct (sockets σ !! sid) as [code|] eqn:Hs; [|apply t_none].
    assert (live sid σ) as Hlive by (by eexists).
    destruct m as [c id cid|id cid|id state| |signal|].
    + destruct c as [| | | |c|]; try apply transition_close.
      destruct id as [| | |id| |]; try apply transition_close.
      destruct cid as [| | |k| |]; try apply transition_close.
      destruct (on_join_cases σ sid c id k) as [->|[[-> _]|(Hacc & _)]];
        [apply transition_close|apply t_none|].
      destruct (on_join_accepted σ sid c id k Hacc) as (others & -> & _).
      by apply t_join with (k := k).
    + destruct id as [| | |id| |]; try apply transition_close.
      destruct cid as [| | |k| |]; try apply transition_close.
      destruct (on_id_cases σ sid code id k) as [->|(Hsame & _)];
        [apply transition_close|].
      rewrite (on_id_accepted σ sid code id k Hsame). by apply t_id.
    + unfold on_pushstate. destruct (JSON_parse state) as [g|]; [|apply t_none].
      destruct (get_prop g "lobbyCode"); [apply t_none|by apply t_pushstate].
    + unfold on_leave. destruct code as [c|]; [|apply t_none].
      destruct (String.eqb c ""); [apply t_none|by apply t_leave].
    + unfold on_signal. destruct (typeof signal); try apply transition_close.
      destruct (get_prop signal "data") as [err|data],
               (get_prop signal "to") as [err'|to]; try apply t_none.
      destruct to; try apply transition_close.
      destruct (truthy data && _); [apply t_none|apply transition_close].
    + cbn [post Done]. apply t_listener; [|done].
      destruct o; [by destruct (Ho eq_refl)|done].
  - apply t_close.
Qed.

(** A property of the initial state that every transition keeps holds at
    the end of every run. *)
Lemma run_invariant (P : State → Prop) :
  (∀ sid σ σ', P σ → transition false sid σ σ' → P σ') →
  ∀ es σ, P σ → P (post (run JSON_parse es σ)).
Proof.
  intros Hkeep es. induction es as [|e es IH]; intros σ HP; [done|].
  cbn [run].
  assert (P (post (step JSON_parse e σ))) as HP'.
  { apply (Hkeep (subject e) σ); [done|]. by apply step_transition. }
  destruct (thrown (step JSON_parse e σ)); [done|]. cbn [post]. by apply IH.
Qed.

(** The same for a property that the transitions of orderly events keep,
    at the end of every orderly run. *)
Lemma run_invariant_orderly (P : State → Prop) :
  (∀ sid σ σ', P σ → transition true sid σ σ' → P σ') →
  ∀ es σ, orderly JSON_parse es σ → P σ → P (post (run JSON_parse es σ)).
Proof.
  intros Hkeep es. induction es as [|e es IH]; intros σ Ho HP; [done|].
  cbn [run]. destruct Ho as [He Hrest].
  assert (P (post (step JSON_parse e σ))) as HP'.
  { apply (Hkeep (subject e) σ); [done|]. by apply step_transition. }
  destruct (thrown (step JSON_parse e σ)); [done|]. cbn [post].
  apply IH; [by apply Hrest|done].
Qed.

End Transitions.

(** ** Invariants of the transitions *)

Lemma transition_counts_live sid σ σ' :
  counts_live σ → transition true sid σ σ' → counts_live σ'.
Proof.
  unfold counts_live.
  intros Hc [ |Hnew|? _| |c k [code Hl] _|id k _ _|c _|lc g _];
    simpl; try done.
  - rewrite map_size_insert_None by (by apply Hnew). lia.
  - unfold close. destruct (sockets σ !! sid) as [code|] eqn:Hs; [|done]. simpl.
    rewrite <- (insert_delete_id (sockets σ) sid code Hs) in Hc.
    rewrite map_size_insert_None in Hc by apply lookup_delete_eq. lia.
  - rewrite map_size_insert_Some by (by eexists). done.
Qed.

Lemma transition_identities_live o sid σ σ' :
  identities_live σ → transition o sid σ σ' → identities_live σ'.
Proof.
  intros Hi [ |_|_ _| |c k Hl _|id k Hl _|c Hc|lc g _]; try done.
  - by apply on_connection_identities_live.
  - by apply on_disconnect_identities_live.
  - by apply close_identities_live.
  - intros s Hs. unfold live. simpl. apply lookup_insert_is_Some'. right. by apply Hi.
  - intros s Hs. simpl in Hs. unfold live. simpl.
    apply lookup_insert_is_Some' in Hs as [->|Hs]; [done|by apply Hi].
  - intros s Hs. simpl in Hs. apply lookup_delete_is_Some in Hs as [_ Hs].
    by apply Hi.
Qed.

Lemma room_del_nonempty id (r r' : gset string) :
  Adapter.room_del id r = Some r' → r' ≠ ∅.
Proof. unfold Adapter.room_del. case_decide; [done|]. by intros [= <-]. Qed.

Lemma transition_rooms_live o sid σ σ' :
  rooms_live σ → transition o sid σ σ' → rooms_live σ'.
Proof.
  intros [Hm Hne] [ |_|_ _| |c k Hl _|id k Hl _|c Hc|lc g _]; try done.
  - split; simpl.
    + intros room x Hx. unfold live. simpl. apply lookup_insert_is_Some'.
      apply elem_of_members_add in Hx as [[_ ->]|Hx]; [by left|right; by apply (Hm room)].
    + intros room r Hr. unfold Adapter.add in Hr.
      apply lookup_insert_Some in Hr as [[_ <-]|[_ Hr]]; [set_solver|by apply (Hne room)].
  - unfold close. destruct (sockets σ !! sid) as [code|] eqn:Hs; [|done].
    split; simpl.
    + intros room x Hx. apply elem_of_members_delAll in Hx as [Hx Hneq].
      unfold live. simpl. apply lookup_delete_is_Some. split; [done|by apply (Hm room)].
    + intros room r Hr. unfold Adapter.delAll in Hr. rewrite lookup_omap in Hr.
      destruct (rooms σ !! room) as [r0|] eqn:Hr0; [|done]. simpl in Hr.
      case_decide; [by apply room_del_nonempty in Hr|].
      injection Hr as <-. by apply (Hne room).
  - split; simpl.
    + intros room x Hx. unfold live. simpl. apply lookup_insert_is_Some'.
      apply elem_of_members_add in Hx as [[_ ->]|Hx]; [by left|right; by apply (Hm room)].
    + intros room r Hr. unfold Adapter.add in Hr.
      apply lookup_insert_Some in Hr as [[_ <-]|[_ Hr]]; [set_solver|by apply (Hne room)].
  - split; simpl.
    + intros room x Hx. apply elem_of_members_del in Hx as [Hx _]. by apply (Hm room).
    + intros room r Hr. unfold Adapter.del in Hr.
      destruct (rooms σ !! c) as [r0|] eqn:Hr0; [|by apply (Hne room)].
      destruct (Adapter.room_del sid r0) as [r1|] eqn:Hdel.
      * apply lookup_insert_Some in Hr as [[_ <-]|[_ Hr]];
          [by apply room_del_nonempty in Hdel|by apply (Hne room)].
      * apply lookup_delete_Some in Hr as [_ Hr]. by apply (Hne room).
Qed.

Lemma normalize_not_sentinel k : normalize k ≠ Some sentinel.
Proof.
  unfold normalize, sentinel. destruct (Z.eqb_spec k (2 ^ 32 - 1)); congruence.
Qed.

Lemma transition_no_sentinel o sid σ σ' :
  no_sentinel σ → transition o sid σ σ' → no_sentinel σ'.
Proof.
  intros Hn [ |_|_ _| |c k Hl _|id k Hl _|c Hc|lc g _]; try done.
  - intros s Hs. simpl in Hs. apply holds_delete in Hs as [Hs _]. by apply (Hn s).
  - unfold close. destruct (sockets σ !! sid); [|done].
    intros s Hs. simpl in Hs. apply holds_delete in Hs as [Hs _]. by apply (Hn s).
  - intros s Hs. simpl in Hs. apply holds_insert in Hs as [[_ Hs]|[_ Hs]].
    + by apply normalize_not_sentinel in Hs.
    + by apply (Hn s).
  - intros s Hs. simpl in Hs. apply holds_delete in Hs as [Hs _]. by apply (Hn s).
Qed.

(** A transition about [sid] changes nothing of another socket: not its
    [code], not its identity, not the rooms it is in. *)
Lemma transition_others o sid σ σ' s :
  transition o sid σ σ' → s ≠ sid →
  sockets σ' !! s = sockets σ !! s
  ∧ clients σ' !! s = clients σ !! s
  ∧ ∀ room, s ∈ Adapter.members room (rooms σ')
            ↔ s ∈ Adapter.members room (rooms σ).
Proof.
  intros [ |_|_ _| |c k Hl _|id k Hl _|c Hc|lc g _] Hne; simpl; try done.
  - rewrite lookup_insert_ne by done. repeat split; try done.
    + intros Hx. apply elem_of_members_add in Hx. naive_solver.
    + intros Hx. apply elem_of_members_add. by right.
  - by rewrite lookup_delete_ne.
  - unfold close. destruct (sockets σ !! sid) as [code|] eqn:Hs; [|done]. simpl.
    rewrite !lookup_delete_ne by done. repeat split; try done.
    + intros Hx. apply elem_of_members_delAll in Hx. naive_solver.
    + intros Hx. apply elem_of_members_delAll. done.
  - rewrite lookup_insert_ne by done. repeat split; try done.
    + intros Hx. apply elem_of_members_add in Hx. naive_solver.
    + intros Hx. apply elem_of_members_add. by right.
  - rewrite lookup_insert_ne by done. done.
  - rewrite lookup_delete_ne by done. repeat split; try done.
    + intros Hx. apply elem_of_members_del in Hx. naive_solver.
    + intros Hx. apply elem_of_members_del. naive_solver.
Qed.

(** ** Further properties of the server *)

Lemma map_get_set_is_Some {V : Type} (k q : JsVal) (v : V) (m : list (JsVal * V)) :
  is_Some (map_get q m) → is_Some (map_get q (map_set k v m)).
Proof. rewrite map_get_set. by destruct (same_value_zero k q). Qed.

Lemma transition_hasRoomCode o rc sid σ σ' :
  get_hasRoomCode rc σ = true → transition o sid σ σ' →
  get_hasRoomCode rc σ' = true.
Proof.
  intros Hv [ |_|_ _| |c k Hl _|id k Hl _|c Hc|lc g _]; try done.
  - by rewrite <- Hv; unfold get_hasRoomCode; rewrite close_states.
  - revert Hv. unfold get_hasRoomCode, map_has. simpl.
    destruct rc as [code|]; [|done]. destruct (negb _); [|done].
    destruct (map_get (JStr code) (states σ)) eqn:Hg; [|done]. intros _.
    destruct (map_get_set_is_Some lc (JStr code) g (states σ)) as [v ->]; [|done].
    rewrite Hg. by eexists.
Qed.

Lemma del_del id room (rooms : gmap string (gset string)) :
  Adapter.del id room (Adapter.del id room rooms) = Adapter.del id room rooms.
Proof.
  unfold Adapter.del at 2 3.
  destruct (rooms !! room) as [r|] eqn:Hr.
  - destruct (Adapter.room_del id r) as [r'|] eqn:Hdel.
    + unfold Adapter.del. rewrite lookup_insert_eq.
      assert (Adapter.room_del id r' = Some r') as ->.
      { unfold Adapter.room_del in *. case_decide as He; [done|].
        injection Hdel as <-.
        replace (r ∖ {[id]} ∖ {[id]}) with (r ∖ {[id]}) by set_solver.
        by rewrite decide_False. }
      by rewrite insert_insert_eq.
    + unfold Adapter.del. by rewrite lookup_delete_eq.
  - unfold Adapter.del. by rewrite Hr.
Qed.

Section Extras.

Variable JSON_parse : JsVal -> option JsVal.

(** X1.  At the end of every run in which every connection is under an
    id that is not live and no client emits an event named ['disconnect'],
    the counter the server reports in [/health] and on its front page is
    the number of connected sockets: every connection adds one, and every
    disconnection, asked for by the client or forced by a listener, takes
    one off, once. *)
Theorem connectionCount_is_live_count es :
  orderly JSON_parse es init →
  connectionCount (post (run JSON_parse es init))
  = Z.of_nat (size (sockets (post (run JSON_parse es init)))).
Proof.
  intros Ho.
  apply (run_invariant_orderly JSON_parse counts_live); [|done|done].
  intros sid σ σ'. apply transition_counts_live.
Qed.

(** X2.  At the end of every run, only connected sockets have an entry in
    the identity registry: a disconnection, whatever its cause, removes the
    identity of the socket. *)
Theorem identities_of_live_sockets es :
  identities_live (post (run JSON_parse es init)).
Proof.
  apply (run_invariant JSON_parse identities_live).
  - intros sid σ σ'. apply transition_identities_live.
  - intros s [cl Hcl]. done.
Qed.

(** X3.  At the end of every run, every socket listed in a room is
    connected, and the room table has no empty room. *)
Theorem rooms_hold_live_sockets es :
  rooms_live (post (run JSON_parse es init)).
Proof.
  apply (run_invariant JSON_parse rooms_live).
  - intros sid σ σ'. apply transition_rooms_live.
  - split; [|done]. intros room x Hx. unfold Adapter.members in Hx. simpl in Hx.
    rewrite lookup_empty in Hx. set_solver.
Qed.

(** X4.  At the end of every run, no stored identity has the sentinel
    [2^32 - 1] as its client id: it is always stored as [null]. *)
Theorem stored_clientId_never_sentinel es :
  no_sentinel (post (run JSON_parse es init)).
Proof.
  apply (run_invariant JSON_parse no_sentinel).
  - intros sid σ σ'. apply transition_no_sentinel.
  - intros s (cl & Hcl & _). done.
Qed.

(** X5.  An event about one socket, accepted or rejected, changes nothing
    of any other socket: its [code], its identity and the rooms it is in
    are as before. *)
Theorem event_leaves_others e σ s :
  s ≠ subject e →
  let σ' := post (step JSON_parse e σ) in
  sockets σ' !! s = sockets σ !! s
  ∧ clients σ' !! s = clients σ !! s
  ∧ ∀ room, s ∈ Adapter.members room (rooms σ')
            ↔ s ∈ Adapter.members room (rooms σ).
Proof.
  intros Hne. apply (transition_others false (subject e)); [|done].
  by apply step_transition.
Qed.

(** X13.  Leaving is idempotent: a second ['leave'] changes nothing. *)
Theorem leave_idempotent σ sid :
  post (step JSON_parse (Message sid MLeave)
          (post (step JSON_parse (Message sid MLeave) σ)))
  = post (step JSON_parse (Message sid MLeave) σ).
Proof.
  destruct (sockets σ !! sid) as [[c|]|] eqn:Hs.
  - destruct (String.eqb c "") eqn:Hc.
    + assert (step JSON_parse (Message sid MLeave) σ = Done σ []) as E
        by (unfold step, on_leave; by rewrite Hs, Hc).
      rewrite E. cbn [post Done]. by rewrite E.
    + assert (step JSON_parse (Message sid MLeave) σ =
              Done {| sockets := sockets σ;
                      rooms := Adapter.del sid c (rooms σ);
                      clients := delete sid (clients σ);
                      states := states σ;
                      connectionCount := connectionCount σ |} []) as E
        by (unfold step, on_leave; by rewrite Hs, Hc).
      rewrite E. cbn [post Done]. unfold step, on_leave. cbn [sockets].
      rewrite Hs, Hc. cbn [post Done rooms clients states connectionCount].
      by rewrite del_del, delete_delete_eq.
  - assert (step JSON_parse (Message sid MLeave) σ = Done σ []) as E
      by (unfold step, on_leave; by rewrite Hs).
    rewrite E. cbn [post Done]. by rewrite E.
  - assert (step JSON_parse (Message sid MLeave) σ = Done σ []) as E
      by (unfold step; by rewrite Hs).
    rewrite E. cbn [post Done]. by rewrite E.
Qed.

(** X15.  A room code the server reports as valid stays valid whatever
    happens next: snapshots are overwritten, never removed, also when the
    sockets of the lobby leave or disconnect.  And for a valid code the
    snapshot query has an answer. *)
Theorem hasRoomCode_stays_valid es roomCode σ :
  get_hasRoomCode roomCode σ = true →
  get_hasRoomCode roomCode (post (run JSON_parse es σ)) = true
  ∧ is_Some (get_gameState roomCode σ).
Proof.
  intros Hv. split.
  - apply (run_invariant JSON_parse (fun σ => get_hasRoomCode roomCode σ = true));
      [|done].
    intros sid σ1 σ2 H1. by apply transition_hasRoomCode.
  - revert Hv. unfold get_hasRoomCode, get_gameState, map_has.
    destruct roomCode as [code|]; [|done]. destruct (truthy _); [|done].
    by destruct (map_get _ _).
Qed.

End Extras.

(** X18.  The address and the port the server starts with are never empty:
    an unset or empty [ADDRESS] is replaced by [127.0.0.1] before the
    check that asks for it, so that check never stops the process. *)
Theorem address_never_unset ADDRESS PORT HTTPS :
  address_unset ADDRESS = false
  ∧ address ADDRESS ≠ ""
  ∧ port PORT HTTPS ≠ "".
Proof.
  assert (∀ x d, d ≠ "" → env_or x d ≠ "") as Hor.
  { intros [s|] d Hd; simpl; [|done].
    destruct (String.eqb_spec s "") as [->|Hs]; simpl; done. }
  assert (address ADDRESS ≠ "") as Ha by (by apply Hor).
  split; [|split; [done|]].
  - unfold address_unset. simpl.
    destruct (String.eqb_spec (address ADDRESS) "") as [?|_]; done.
  - apply Hor. by destruct (httpsEnabled HTTPS).
Qed.

Section ExtrasOfListeners.

Variable JSON_parse : JsVal -> option JsVal.

(** X6.  A well-typed join of a connected socket for a lobby code that
    has a room, or that is no property name of [Object.prototype], and
    none of whose sockets holds the asserted client id, is accepted: the
    [code] of the socket becomes the lobby code, the socket is added to the
    room of the lobby and stays in the rooms it was in, no identity is
    stored, the [join] broadcast goes to exactly the other connected
    sockets of the lobby, and the joiner receives one [setClients] that
    maps every other socket of the lobby to its stored identity
    ([undefined] when it has none) and has no entry for the joiner. *)
Theorem join_accepted σ sid code c id k :
  sockets σ !! sid = Some code →
  accepts c k σ →
  let r := step JSON_parse (Message sid (MJoin (JStr c) (JNum id) (JNum k))) σ in
  thrown r = None
  ∧ sockets (post r) = <[sid := Some c]> (sockets σ)
  ∧ clients (post r) = clients σ
  ∧ (∀ room x, x ∈ Adapter.members room (rooms (post r))
               ↔ (room = c ∧ x = sid) ∨ x ∈ Adapter.members room (rooms σ))
  ∧ ∃ otherClients,
      (∀ x p, (x, p) ∈ emitted r ↔
         (p = PJoin sid {| playerId := id; clientId := normalize k |}
          ∧ x ∈ Adapter.members c (rooms σ) ∧ x ≠ sid ∧ live x σ)
         ∨ (x = sid ∧ p = PSetClients otherClients))
      ∧ ∀ s, otherClients !! s =
             if decide (s ∈ Adapter.members c (rooms σ) ∧ s ≠ sid)
             then Some (clients σ !! s) else None.
Proof.
  intros Hlive Hacc r. subst r. unfold step. rewrite Hlive.
  destruct (on_join_accepted σ sid c id k Hacc) as (others & -> & Hothers).
  cbn [post Done thrown emitted sockets clients rooms].
  split; [done|]. split; [done|]. split; [done|]. split.
  { intros room x. apply elem_of_members_add. }
  exists others. split; [|done].
  intros x p. rewrite elem_of_app, elem_of_broadcast, list_elem_of_singleton.
  cbn [rooms sockets]. unfold live. cbn [sockets].
  rewrite elem_of_members_add, elem_of_singleton. split.
  - intros [(-> & [[_ ->]|Hm] & Hx & Hl)|[= -> ->]]; [done| |by right].
    left. rewrite lookup_insert_ne in Hl by done. done.
  - intros [(-> & Hm & Hx & Hl)|[-> ->]]; [|by right].
    left. rewrite lookup_insert_ne by done. auto.
Qed.


(** X10.  A listener of the server lets an exception escape in four cases
    only: a signal that is [null], a ['pushstate'] whose text does not
    parse, a ['pushstate'] whose text parses to [null], and a well-typed
    join for a lobby code that is a property name of [Object.prototype]
    and has no room.  In each of them the state is the one before the
    message and nothing has been sent. *)
Theorem uncaught_exceptions e σ err :
  thrown (step JSON_parse e σ) = Some err →
  post (step JSON_parse e σ) = σ
  ∧ emitted (step JSON_parse e σ) = []
  ∧ ∃ sid, live sid σ
      ∧ ((e = Message sid (MSignal JNull) ∧ err = TypeError)
         ∨ (∃ id state, e = Message sid (MPushstate id state)
              ∧ match JSON_parse state with
                | None => err = SyntaxError
                | Some gameState =>
                    err = TypeError
                    ∧ (gameState = JNull ∨ gameState = JUndefined)
                end)
         ∨ (∃ c id k, e = Message sid (MJoin (JStr c) (JNum id) (JNum k))
              ∧ rooms σ !! c = None ∧ inherited c = true
              ∧ err = TypeError)).
Proof.
  destruct e as [sid|sid m|sid]; cbn [step].
  - done.
  - destruct (sockets σ !! sid) as [code|] eqn:Hs; [|done].
    assert (live sid σ) as Hlive by (by eexists).
    destruct m as [c id cid|id cid|id state| |signal|]; [| | | | |done].
    + destruct c as [| | | |c|]; try done.
      destruct id as [| | |id| |]; try done.
      destruct cid as [| | |k| |]; try done.
      destruct (on_join_cases σ sid c id k)
        as [->|[(-> & Hroom & Hin)|(Hacc & _)]]; [done| |].
      * intros [= <-]. split; [done|]. split; [done|]. exists sid.
        split; [done|]. right. right. exists c, id, k. done.
      * by destruct (on_join_accepted σ sid c id k Hacc) as (others & -> & _).
    + unfold on_id. destruct id, cid; try done.
      by destruct (match clients σ !! sid with Some _ => _ | None => _ end).
    + unfold on_pushstate. intros Hthrown.
      destruct (JSON_parse state) as [g|] eqn:Hparse.
      * destruct g; simpl in *; try done; injection Hthrown as <-;
          (split; [done|]; split; [done|]; exists sid; split; [done|]; right; left;
           exists id, state; rewrite Hparse; auto).
      * simpl in Hthrown. injection Hthrown as <-.
        split; [done|]. split; [done|]. exists sid. split; [done|]. right. left.
        exists id, state. by rewrite Hparse.
    + unfold on_leave. destruct code as [c|]; [|done]. by destruct (String.eqb c "").
    + unfold on_signal.
      destruct signal; simpl; try done.
      * intros [= <-]. split; [done|]. split; [done|]. exists sid. split; [done|].
        by left.
      * destruct (field "to" fields); try done.
        by destruct (truthy (field "data" fields) && _).
  - done.
Qed.

End ExtrasOfListeners.

Section ExtrasOfLifecycle.

Variable JSON_parse : JsVal -> option JsVal.

(** X11.  A ['leave'] of a socket whose [code] is a non-empty lobby code
    takes the socket out of the room of that lobby and removes its
    identity; the socket stays connected and its [code] stays the lobby
    code.  So an ['id'] it sends afterwards is accepted, whatever client id
    it asserts, and its [setClient] still goes to the sockets of the lobby
    it has left. *)
Theorem leave_keeps_code σ sid c :
  sockets σ !! sid = Some (Some c) →
  c ≠ "" →
  let r := step JSON_parse (Message sid MLeave) σ in
  emitted r = [] ∧ thrown r = None
  ∧ sockets (post r) = sockets σ
  ∧ clients (post r) = delete sid (clients σ)
  ∧ (∀ room x, x ∈ Adapter.members room (rooms (post r))
               ↔ x ∈ Adapter.members room (rooms σ) ∧ ¬ (room = c ∧ x = sid))
  ∧ ∀ id k x p,
      (x, p) ∈ emitted (step JSON_parse (Message sid (MId (JNum id) (JNum k)))
                          (post r))
      ↔ p = PSetClient sid {| playerId := id; clientId := normalize k |}
        ∧ x ∈ Adapter.members c (rooms σ) ∧ x ≠ sid ∧ live x σ.
Proof.
  intros Hlive Hne.
  assert (step JSON_parse (Message sid MLeave) σ =
          Done {| sockets := sockets σ;
                  rooms := Adapter.del sid c (rooms σ);
                  clients := delete sid (clients σ);
                  states := states σ;
                  connectionCount := connectionCount σ |} []) as E.
  { unfold step, on_leave. rewrite Hlive.
    by destruct (String.eqb_spec c "") as [?|_]. }
  intros r. subst r. rewrite E. cbn [post Done emitted thrown sockets clients rooms].
  split_and!; try done.
  - intros room x. apply elem_of_members_del.
  - intros id k x p. unfold step. cbn [sockets]. rewrite Hlive.
    rewrite on_id_accepted.
    + cbv zeta. cbn [emitted Done room_key default].
      rewrite elem_of_broadcast. cbn [rooms]. unfold live. cbn [sockets].
      rewrite elem_of_members_del, elem_of_singleton. naive_solver.
    + intros k' (cl & Hcl & _). simpl in Hcl. by rewrite lookup_delete_eq in Hcl.
Qed.

(** X12.  The lobby whose code is the empty string can be joined and
    cannot be left: after an accepted join for it, a ['leave'] does
    nothing, and the socket stays in the room. *)
Theorem empty_lobby_is_not_left σ sid code id k :
  sockets σ !! sid = Some code →
  (∀ t, t ∈ Adapter.members "" (rooms σ) → ¬ holds (clients σ) t k) →
  let σ1 := post (step JSON_parse
                    (Message sid (MJoin (JStr "") (JNum id) (JNum k))) σ) in
  step JSON_parse (Message sid MLeave) σ1 = Done σ1 []
  ∧ sid ∈ Adapter.members "" (rooms σ1).
Proof.
  intros Hlive Hfree.
  assert (accepts "" k σ) as Hacc by (split; [by intros _|done]).
  destruct (on_join_accepted σ sid "" id k Hacc) as (others & E & _).
  assert (step JSON_parse (Message sid (MJoin (JStr "") (JNum id) (JNum k))) σ
          = on_join sid (JStr "") (JNum id) (JNum k) σ) as E1
    by (unfold step; by rewrite Hlive).
  rewrite E in E1. intros σ1. subst σ1. rewrite E1. cbv zeta. cbn [post Done].
  split.
  - unfold step. cbn [sockets]. by rewrite lookup_insert_eq.
  - cbn [rooms]. apply elem_of_members_add. by left.
Qed.

(** X14.  The disconnection of a connected socket takes it out of the
    live sockets, of every room and of the identity registry, takes one off
    the counter, sends nothing and leaves the snapshots as they are; a
    second disconnection of the same socket changes nothing. *)
Theorem disconnect_effect σ sid code :
  sockets σ !! sid = Some code →
  let r := step JSON_parse (Disconnect sid) σ in
  emitted r = [] ∧ thrown r = None
  ∧ ¬ live sid (post r)
  ∧ clients (post r) !! sid = None
  ∧ (∀ room, sid ∉ Adapter.members room (rooms (post r)))
  ∧ connectionCount (post r) = (connectionCount σ - 1)%Z
  ∧ states (post r) = states σ
  ∧ step JSON_parse (Disconnect sid) (post r) = Done (post r) [].
Proof.
  intros Hlive r. subst r. cbn [step post Done emitted thrown].
  destruct (close_effect _ _ _ Hlive) as (H1 & H2 & H3 & H4 & _).
  split_and!; try done.
  - by rewrite (close_connected _ _ _ Hlive).
  - f_equal. unfold close at 1.
    destruct (sockets (close sid σ) !! sid) eqn:Hs; [|done].
    destruct H1. by eexists.
Qed.

(** X16.  A ['pushstate'] whose text parses to a value whose [lobbyCode]
    is not a string (it is missing, say) is accepted and stored under that
    key, and no query sees it: the answers of the snapshot query and of
    the validity query are unchanged for every room code. *)
Theorem pushstate_without_code σ sid code id state gameState lobbyCode :
  sockets σ !! sid = Some code →
  JSON_parse state = Some gameState →
  get_prop gameState "lobbyCode" = inr lobbyCode →
  typeof lobbyCode ≠ TString →
  let r := step JSON_parse (Message sid (MPushstate id state)) σ in
  thrown r = None
  ∧ states (post r) = map_set lobbyCode gameState (states σ)
  ∧ ∀ roomCode,
      get_gameState roomCode (post r) = get_gameState roomCode σ
      ∧ get_hasRoomCode roomCode (post r) = get_hasRoomCode roomCode σ.
Proof.
  intros Hlive Hparse Hcode Hty r. subst r.
  unfold step, on_pushstate. rewrite Hlive, Hparse, Hcode.
  cbn [post Done thrown states]. split; [done|]. split; [done|].
  intros roomCode. unfold get_gameState, get_hasRoomCode, map_has.
  destruct roomCode as [rc|]; [|done]. destruct (truthy (JStr rc)); [|done].
  cbn [states]. rewrite map_get_set.
  destruct (same_value_zero lobbyCode (JStr rc)) eqn:Heq; [|done].
  apply same_value_zero_eq in Heq. by subst lobbyCode.
Qed.

(** X17.  At the end of every run, a join that asserts the sentinel
    [2^32 - 1] as its client id is accepted for every lobby code that has
    a room or is no property name of [Object.prototype], whoever is in the
    lobby: no stored client id is ever equal to the sentinel.  The [join]
    broadcast to the other sockets of the lobby carries a [null] client
    id. *)
Theorem join_sentinel_accepted es sid c id :
  let σ := post (run JSON_parse es init) in
  live sid σ →
  scannable c σ →
  let r := step JSON_parse
             (Message sid (MJoin (JStr c) (JNum id) (JNum sentinel))) σ in
  live sid (post r)
  ∧ sockets (post r) !! sid = Some (Some c)
  ∧ sid ∈ Adapter.members c (rooms (post r))
  ∧ ∀ x, x ∈ Adapter.members c (rooms σ) → x ≠ sid →
         (x, PJoin sid {| playerId := id; clientId := None |}) ∈ emitted r.
Proof.
  intros σ [code Hlive] Hplain.
  assert (no_sentinel σ) as Hn.
  { apply (run_invariant JSON_parse no_sentinel).
    - intros s σ1 σ2. apply transition_no_sentinel.
    - intros s (cl & Hcl & _). done. }
  assert (rooms_live σ) as [Hrl _].
  { apply (run_invariant JSON_parse rooms_live).
    - intros s σ1 σ2. apply transition_rooms_live.
    - split; [|done]. intros room x Hx. unfold Adapter.members in Hx. simpl in Hx.
      rewrite lookup_empty in Hx. set_solver. }
  assert (accepts c sentinel σ) as Hacc
    by (split; [done|]; intros t _; apply Hn).
  destruct (on_join_accepted σ sid c id sentinel Hacc) as (others & E & _).
  intros r. subst r. unfold step. rewrite Hlive, E. cbv zeta.
  cbn [post Done emitted sockets rooms]. unfold live. cbn [sockets].
  rewrite lookup_insert_eq. split_and!; try done.
  - apply elem_of_members_add. by left.
  - intros x Hx Hne. apply elem_of_app. left. apply elem_of_broadcast.
    cbn [rooms]. unfold live. cbn [sockets].
    rewrite elem_of_members_add, elem_of_singleton, lookup_insert_ne by done.
    split_and!; try done; [by right|]. by apply (Hrl c).
Qed.

(** X19.  A client event named ['disconnect'] runs the listener of that
    name on a socket that stays connected and stays in its rooms: the
    identity of the socket is removed and one is taken off the counter.
    An ['id'] that follows is accepted whatever client id it asserts, also
    one that differs from the client id the socket held. *)
Theorem disconnect_event_keeps_socket σ sid code id k :
  sockets σ !! sid = Some code →
  let σ1 := post (step JSON_parse (Message sid MDisconnect) σ) in
  let r := step JSON_parse (Message sid (MId (JNum id) (JNum k))) σ1 in
  sockets σ1 = sockets σ ∧ rooms σ1 = rooms σ
  ∧ clients σ1 = delete sid (clients σ)
  ∧ connectionCount σ1 = (connectionCount σ - 1)%Z
  ∧ live sid (post r)
  ∧ clients (post r) !! sid = Some {| playerId := id; clientId := normalize k |}.
Proof.
  intros Hlive.
  assert (step JSON_parse (Message sid MDisconnect) σ
          = Done (on_disconnect sid σ) []) as E
    by (unfold step; by rewrite Hlive).
  assert (∀ k', holds (clients (on_disconnect sid σ)) sid k' → k' = k) as Hnone.
  { intros k' (cl & Hcl & _). simpl in Hcl. by rewrite lookup_delete_eq in Hcl. }
  assert (step JSON_parse (Message sid (MId (JNum id) (JNum k))) (on_disconnect sid σ)
          = on_id sid code (JNum id) (JNum k) (on_disconnect sid σ)) as E2
    by (unfold step; cbn [sockets on_disconnect]; by rewrite Hlive).
  rewrite (on_id_accepted _ sid code id k Hnone) in E2.
  intros σ1 r. subst r σ1. rewrite E. cbn [post Done]. rewrite E2. cbv zeta.
  cbn [post Done on_disconnect sockets rooms clients connectionCount].
  unfold live. cbn [sockets]. rewrite Hlive, lookup_insert_eq.
  split_and!; done.
Qed.

(** X20.  A second CONNECT packet under the id of a connected socket runs
    the ['connection'] listener again: the counter goes up by one while
    the number of connected sockets stays the same, the [code] of the
    socket is [null] again, and the socket stays in the rooms it was in
    with its identity; a ['leave'] that follows does nothing. *)
Theorem reconnection_counts_twice σ sid code :
  sockets σ !! sid = Some code →
  let σ1 := post (step JSON_parse (Connect sid) σ) in
  connectionCount σ1 = (connectionCount σ + 1)%Z
  ∧ size (sockets σ1) = size (sockets σ)
  ∧ sockets σ1 !! sid = Some None
  ∧ clients σ1 = clients σ
  ∧ (∀ room, sid ∈ Adapter.members room (rooms σ) →
             sid ∈ Adapter.members room (rooms σ1))
  ∧ step JSON_parse (Message sid MLeave) σ1 = Done σ1 [].
Proof.
  intros Hlive σ1. subst σ1. cbn [step post Done].
  split_and!; try done.
  - cbn. apply map_size_insert_Some. by eexists.
  - cbn. by rewrite lookup_insert_eq.
  - intros room Hin. cbn. apply elem_of_members_add. by right.
  - unfold step. cbn [sockets on_connection]. by rewrite lookup_insert_eq.
Qed.

End ExtrasOfLifecycle.

(** ** The further properties on concrete runs *)

Lemma S1_identified_holds_5 s k :
  holds (clients (post (run json S1_identified init))) s k → k = 5%Z.
Proof.
  rewrite S1_identified_clients. intros (cl & Hcl & Hk).
  apply lookup_singleton_Some in Hcl as [_ <-]. simpl in Hk. congruence.
Qed.

Lemma connectionCount_is_live_count_witness :
  connectionCount (post (run json scenario_shared_clientId init)) = 2%Z
  ∧ size (sockets (post (run json scenario_shared_clientId init))) = 2%nat.
Proof.
  assert (orderly json scenario_shared_clientId init) as Ho.
  { repeat (split; [first [exact I | vm_compute; reflexivity]|intros _]). exact I. }
  pose proof (connectionCount_is_live_count json scenario_shared_clientId Ho) as Hc.
  assert (size (sockets (post (run json scenario_shared_clientId init))) = 2%nat)
    as Hs by (vm_compute; reflexivity).
  split; [|exact Hs]. rewrite Hc, Hs. reflexivity.
Defined.

Lemma event_leaves_others_witness :
  let σ := post (run json S1_identified init) in
  let σ' := post (step json (Message "S2" (MJoin (JStr "LOBBY1") (JNum 1) (JNum 5))) σ) in
  sockets σ' !! "S1" = sockets σ !! "S1"
  ∧ clients σ' !! "S1" = clients σ !! "S1"
  ∧ ∀ room, "S1" ∈ Adapter.members room (rooms σ')
            ↔ "S1" ∈ Adapter.members room (rooms σ).
Proof.
  intros σ.
  assert ("S1" ≠ subject (Message "S2" (MJoin (JStr "LOBBY1") (JNum 1) (JNum 5))))
    as Hne by discriminate.
  exact (event_leaves_others json _ σ "S1" Hne).
Defined.

Lemma join_accepted_witness :
  let σ := post (run json S1_identified init) in
  let r := step json (Message "S2" (MJoin (JStr "LOBBY1") (JNum 1) (JNum 6))) σ in
  thrown r = None
  ∧ sockets (post r) = <["S2" := Some "LOBBY1"]> (sockets σ)
  ∧ clients (post r) = clients σ.
Proof.
  intros σ r.
  assert (sockets σ !! "S2" = Some None) as Hlive by (vm_compute; reflexivity).
  assert (accepts "LOBBY1" 6 σ) as Hacc.
  { split; [by intros _|].
    intros t _ Hh. apply S1_identified_holds_5 in Hh. discriminate Hh. }
  destruct (join_accepted json σ "S2" None "LOBBY1" 1 6 Hlive Hacc)
    as (H1 & H2 & H3 & _).
  exact (conj H1 (conj H2 H3)).
Defined.


Lemma uncaught_exceptions_witness :
  let σ := post (run json S1_identified init) in
  let e := Message "S2" (MJoin (JStr "constructor") (JNum 1) (JNum 6)) in
  thrown (step json e σ) = Some TypeError
  ∧ post (step json e σ) = σ
  ∧ emitted (step json e σ) = [].
Proof.
  intros σ e.
  assert (thrown (step json e σ) = Some TypeError) as Hthrown
    by (vm_compute; reflexivity).
  destruct (uncaught_exceptions json e σ TypeError Hthrown) as (H1 & H2 & _).
  exact (conj Hthrown (conj H1 H2)).
Defined.

Lemma leave_keeps_code_witness :
  let σ := post (run json scenario_identified init) in
  let r := step json (Message "S1" MLeave) σ in
  sockets (post r) = sockets σ
  ∧ clients (post r) = delete "S1" (clients σ)
  ∧ ("S2", PSetClient "S1" {| playerId := 0; clientId := normalize 9 |})
    ∈ emitted (step json (Message "S1" (MId (JNum 0) (JNum 9))) (post r)).
Proof.
  intros σ r.
  assert (sockets σ !! "S1" = Some (Some "LOBBY1")) as Hlive by (vm_compute; reflexivity).
  assert ("LOBBY1" ≠ "") as Hne by discriminate.
  destruct (leave_keeps_code json σ "S1" "LOBBY1" Hlive Hne)
    as (_ & _ & H3 & H4 & _ & H6).
  split; [exact H3|]. split; [exact H4|].
  apply H6. split; [reflexivity|]. split; [compute_done|].
  split; [discriminate|compute_done].
Defined.

Lemma empty_lobby_is_not_left_witness :
  let σ := post (run json S1_identified init) in
  let σ1 := post (step json (Message "S2" (MJoin (JStr "") (JNum 1) (JNum 6))) σ) in
  step json (Message "S2" MLeave) σ1 = Done σ1 []
  ∧ "S2" ∈ Adapter.members "" (rooms σ1).
Proof.
  intros σ.
  assert (sockets σ !! "S2" = Some None) as Hlive by (vm_compute; reflexivity).
  assert (∀ t, t ∈ Adapter.members "" (rooms σ) → ¬ holds (clients σ) t 6)
    as Hfree.
  { intros t _ Hh. apply S1_identified_holds_5 in Hh. discriminate Hh. }
  exact (empty_lobby_is_not_left json σ "S2" None 1 6 Hlive Hfree).
Defined.

Lemma disconnect_effect_witness :
  let σ := post (run json S1_identified init) in
  let r := step json (Disconnect "S1") σ in
  ¬ live "S1" (post r)
  ∧ clients (post r) !! "S1" = None
  ∧ connectionCount (post r) = (connectionCount σ - 1)%Z.
Proof.
  intros σ r.
  assert (sockets σ !! "S1" = Some (Some "LOBBY1")) as Hlive by (vm_compute; reflexivity).
  destruct (disconnect_effect json σ "S1" _ Hlive) as (_ & _ & H3 & H4 & _ & H6 & _).
  exact (conj H3 (conj H4 H6)).
Defined.

Lemma hasRoomCode_stays_valid_witness :
  let σ := post (run json
             [ Connect "S1";
               Message "S1" (MPushstate (JNum 0) (JStr (snapshot_text "ABCDE"))) ] init) in
  get_hasRoomCode (Some "ABCDE") (post (run json [Disconnect "S1"] σ)) = true
  ∧ is_Some (get_gameState (Some "ABCDE") σ).
Proof.
  intros σ.
  assert (get_hasRoomCode (Some "ABCDE") σ = true) as Hv by (vm_compute; reflexivity).
  exact (hasRoomCode_stays_valid json [Disconnect "S1"] (Some "ABCDE") σ Hv).
Defined.

Lemma pushstate_without_code_witness :
  let parse := parse_table [("{}", JObj [])] in
  let σ := post (run parse [Connect "S1"] init) in
  let r := step parse (Message "S1" (MPushstate (JNum 0) (JStr "{}"))) σ in
  thrown r = None
  ∧ states (post r) = [(JUndefined, JObj [])]
  ∧ ∀ roomCode,
      get_gameState roomCode (post r) = get_gameState roomCode σ
      ∧ get_hasRoomCode roomCode (post r) = get_hasRoomCode roomCode σ.
Proof.
  intros parse σ.
  assert (sockets σ !! "S1" = Some None) as Hlive by (vm_compute; reflexivity).
  assert (typeof JUndefined ≠ TString) as Hty by discriminate.
  exact (pushstate_without_code parse σ "S1" None (JNum 0) (JStr "{}")
           (JObj []) JUndefined Hlive eq_refl eq_refl Hty).
Defined.

Lemma disconnect_event_keeps_socket_witness :
  let σ := post (run json S1_identified init) in
  let σ1 := post (step json (Message "S1" MDisconnect) σ) in
  let r := step json (Message "S1" (MId (JNum 0) (JNum 6))) σ1 in
  holds (clients σ) "S1" 5
  ∧ sockets σ1 = sockets σ ∧ rooms σ1 = rooms σ
  ∧ live "S1" (post r)
  ∧ clients (post r) !! "S1" = Some {| playerId := 0; clientId := normalize 6 |}.
Proof.
  intros σ.
  assert (sockets σ !! "S1" = Some (Some "LOBBY1")) as Hlive by (vm_compute; reflexivity).
  assert (holds (clients σ) "S1" 5) as Hh.
  { exists {| playerId := 0; clientId := Some 5%Z |}. split; vm_compute; reflexivity. }
  destruct (disconnect_event_keeps_socket json σ "S1" _ 0 6 Hlive)
    as (H1 & H2 & _ & _ & H5 & H6).
  exact (conj Hh (conj H1 (conj H2 (conj H5 H6)))).
Defined.

Lemma reconnection_counts_twice_witness :
  let σ := post (run json S1_identified init) in
  let σ1 := post (step json (Connect "S1") σ) in
  connectionCount σ1 = 3%Z
  ∧ size (sockets σ1) = 2%nat
  ∧ "S1" ∈ Adapter.members "LOBBY1" (rooms σ1)
  ∧ step json (Message "S1" MLeave) σ1 = Done σ1 [].
Proof.
  intros σ.
  assert (sockets σ !! "S1" = Some (Some "LOBBY1")) as Hlive by (vm_compute; reflexivity).
  assert ("S1" ∈ Adapter.members "LOBBY1" (rooms σ)) as Hin by compute_done.
  destruct (reconnection_counts_twice json σ "S1" _ Hlive)
    as (H1 & H2 & _ & _ & H5 & H6).
  split; [rewrite H1; vm_compute; reflexivity|].
  split; [rewrite H2; vm_compute; reflexivity|].
  split; [exact (H5 "LOBBY1" Hin)|exact H6].
Defined.

Lemma join_sentinel_accepted_witness :
  let σ := post (run json S1_identified init) in
  let r := step json (Message "S2" (MJoin (JStr "LOBBY1") (JNum 1) (JNum sentinel))) σ in
  live "S2" (post r)
  ∧ ("S1", PJoin "S2" {| playerId := 1; clientId := None |}) ∈ emitted r.
Proof.
  intros σ r.
  assert (live "S2" σ) as Hlive by compute_done.
  assert (scannable "LOBBY1" σ) as Hplain by (by intros _).
  destruct (join_sentinel_accepted json S1_identified "S2" "LOBBY1" 1 Hlive Hplain)
    as (H1 & _ & _ & H4).
  split; [exact H1|]. apply H4; [compute_done|discriminate].
Defined.
